(** * Flappy Bird: the simulation core of [src/components/flappy-bird.tsx]

    The component keeps its game in React state cells ([gameState], [score],
    [highScore], [bird], [pipes]) and one mutable ref ([frameCountRef]).
    A handler ([jump], [resetGame], [gameLoop]) is a closure over the values
    of the render that created it, and changes the cells by calling their
    setters.  The embedding keeps both sides apart:

    - the _snapshot_ a handler closes over is a plain [Game] record;
    - the _pending_ cells the setters write to are threaded through a small
      state monad [M]; an updater passed to a setter ([setBird (prev => ...)])
      receives the pending value and may itself call other setters, as the
      source does.

    One handler call is one atomic transition [Game -> Game]: the closure
    belongs to the latest render (the effect at the bottom of the component
    re-schedules the loop after every change), so snapshot and pending
    state agree when the handler starts.  When the handlers are called is
    not modelled: animation frames and touches arrive as a list of
    [Event]s.  Rendering is left out.

    Numbers.  Positions and speeds are JavaScript numbers; they are
    modelled as exact rationals [Q]: no rounding, no [NaN], no infinities.
    The two counters ([score], [frameCountRef.current]) only ever hold
    integers and are modelled in [Z].  [Math.random()] is an input [r] of
    the frame that calls it.

    What exact arithmetic does and does not say.  [GRAVITY = 0.8] is not
    a double, so the program's [velocityY] and [y] carry a rounding error
    that grows by some [1e-15] a frame.  A theorem about one event reads
    [+] and [<] as the operations of the program on the values it is
    given.  Over many frames the general theorems do not sum up [y] or
    [velocityY]: they speak of bounds, phases, counters, and of the
    positions of the pipes, which are integers on the sample screens and
    exact in doubles.  The sample games below are followed in exact
    arithmetic; the bird of the program differs from theirs in the last
    digits, and they keep the bird several units away from every edge it
    is compared with, so that their phases, scores, counters and pipes
    are those of the program. *)

From Stdlib Require Import List Bool ZArith QArith Qminmax Lqa Lia.
From Stdlib Require Import Permutation.
Import ListNotations.

Open Scope Q_scope.

(** ** Comparisons on numbers, as booleans *)

Definition Qltb (a b : Q) : bool :=
  match a ?= b with
  | Lt => true
  | _ => false
  end.

Definition Qgtb (a b : Q) : bool := Qltb b a.

(** ** Data model *)

Module Bird.
Record t : Type := mk { x : Q; y : Q; velocityY : Q }.

(** [{ ...prev, velocityY: v }] *)
Definition with_velocityY (v : Q) (b : t) : t :=
  {| x := x b; y := y b; velocityY := v |}.
End Bird.

Module Pipe.
Record t : Type :=
  mk { x : Q; topHeight : Q; bottomY : Q; scored : bool }.

(** [{ ...pipe, x: v }] *)
Definition with_x (v : Q) (p : t) : t :=
  {| x := v; topHeight := topHeight p; bottomY := bottomY p;
     scored := scored p |}.

(** [pipe.scored = true] *)
Definition mark_scored (p : t) : t :=
  {| x := x p; topHeight := topHeight p; bottomY := bottomY p;
     scored := true |}.
End Pipe.

Definition GRAVITY : Q := 0.8.
Definition JUMP_FORCE : Q := -12.
Definition PIPE_WIDTH : Q := 60.
Definition PIPE_GAP : Q := 200.
Definition BIRD_SIZE : Q := 30.
Definition GAME_SPEED : Q := 3.

Inductive GameState : Type := waiting | playing | gameOver.

Record Game : Type := mkGame {
  gameState : GameState;
  score : Z;
  highScore : Z;
  bird : Bird.t;
  pipes : list Pipe.t;
  frameCount : Z
}.

(** ** Setters: a state monad over the pending cells *)

Definition M (A : Type) : Type := Game -> A * Game.

Definition ret {A} (a : A) : M A := fun s => (a, s).

Definition bind {A B} (m : M A) (k : A -> M B) : M B :=
  fun s => let (a, s') := m s in k a s'.

Notation "m ;; k" := (bind m (fun _ => k))
  (at level 61, right associativity).
Notation "x <- m ;; k" := (bind m (fun x => k))
  (at level 61, m at next level, right associativity).

Definition exec (m : M unit) (s : Game) : Game := snd (m s).

Definition setGameState (g : GameState) : M unit := fun s =>
  (tt, mkGame g (score s) (highScore s) (bird s) (pipes s) (frameCount s)).

(** [setScore(prev => ...)] *)
Definition setScore (f : Z -> Z) : M unit := fun s =>
  (tt, mkGame (gameState s) (f (score s)) (highScore s) (bird s) (pipes s)
         (frameCount s)).

Definition setHighScore (h : Z) : M unit := fun s =>
  (tt, mkGame (gameState s) (score s) h (bird s) (pipes s) (frameCount s)).

(** [setBird(prev => ...)]: the updater sees the pending bird and may call
    other setters before it returns the next one. *)
Definition setBird (f : Bird.t -> M Bird.t) : M unit := fun s =>
  let (b, s') := f (bird s) s in
  (tt, mkGame (gameState s') (score s') (highScore s') b (pipes s')
         (frameCount s')).

(** [setPipes(prev => ...)] *)
Definition setPipes (f : list Pipe.t -> M (list Pipe.t)) : M unit := fun s =>
  let (ps, s') := f (pipes s) s in
  (tt, mkGame (gameState s') (score s') (highScore s') (bird s') ps
         (frameCount s')).

(** [frameCountRef.current] read and written *)
Definition getFrameCount : M Z := fun s => (frameCount s, s).

Definition setFrameCount (n : Z) : M unit := fun s =>
  (tt, mkGame (gameState s) (score s) (highScore s) (bird s) (pipes s) n).

(** ** The component *)

Section FlappyBird.

(** [useWindowDimensions()] *)
Variables screenWidth screenHeight : Q.

Definition initialBird : Bird.t :=
  {| Bird.x := 100; Bird.y := screenHeight / 2; Bird.velocityY := 0 |}.

(** The state of a freshly mounted component: the [useState]/[useRef]
    initial values. *)
Definition FlappyBird : Game :=
  {| gameState := waiting; score := 0; highScore := 0;
     bird := initialBird; pipes := []; frameCount := 0 |}.

Definition resetGame : M unit :=
  setGameState waiting ;;
  setScore (fun _ => 0%Z) ;;
  setBird (fun _ => ret initialBird) ;;
  setPipes (fun _ => ret []) ;;
  setFrameCount 0.

(** [jump] as created by the render whose state is [snap]. *)
Definition jump (snap : Game) : M unit :=
  match gameState snap with
  | waiting =>
      setGameState playing ;;
      setBird (fun prev => ret (Bird.with_velocityY JUMP_FORCE prev))
  | playing =>
      setBird (fun prev => ret (Bird.with_velocityY JUMP_FORCE prev))
  | gameOver => resetGame
  end.

Definition minHeight : Q := 50.
Definition maxHeight : Q := screenHeight - PIPE_GAP - minHeight - 100.

(** [r] is the value of [Math.random()]. *)
Definition generatePipe (r : Q) : Pipe.t :=
  let topHeight := r * (maxHeight - minHeight) + minHeight in
  {| Pipe.x := screenWidth;
     Pipe.topHeight := topHeight;
     Pipe.bottomY := topHeight + PIPE_GAP;
     Pipe.scored := false |}.

(** The body of the [for (const pipe of pipes)] loop: [true] is the
    early [return true]. *)
Definition hitsPipe (b : Bird.t) (pipe : Pipe.t) : bool :=
  if Qgtb (Bird.x b + BIRD_SIZE) (Pipe.x pipe)
     && Qltb (Bird.x b) (Pipe.x pipe + PIPE_WIDTH)
  then
    if Qltb (Bird.y b) (Pipe.topHeight pipe)
       || Qgtb (Bird.y b + BIRD_SIZE) (Pipe.bottomY pipe)
    then true
    else false
  else false.

Fixpoint pipeLoop (b : Bird.t) (ps : list Pipe.t) : bool :=
  match ps with
  | [] => false
  | pipe :: rest => if hitsPipe b pipe then true else pipeLoop b rest
  end.

Definition checkCollision (b : Bird.t) (ps : list Pipe.t) : bool :=
  if Qgtb (Bird.y b) (screenHeight - 100 - BIRD_SIZE) then true
  else if Qltb (Bird.y b) 0 then true
  else pipeLoop b ps.

(** [newPipes.forEach(pipe => { if (!pipe.scored && ...) {...} })]:
    marks the pipe objects in place and calls [setScore] once per mark.
    [birdX] is [bird.x] of the closure. *)
Fixpoint forEachScore (birdX : Q) (ps : list Pipe.t) : M (list Pipe.t) :=
  match ps with
  | [] => ret []
  | pipe :: rest =>
      pipe' <- (if negb (Pipe.scored pipe)
                   && Qltb (Pipe.x pipe + PIPE_WIDTH) birdX
                then setScore (fun prev => (prev + 1)%Z) ;;
                     ret (Pipe.mark_scored pipe)
                else ret pipe) ;;
      rest' <- forEachScore birdX rest ;;
      ret (pipe' :: rest')
  end.

(** The updater given to [setBird] by [gameLoop]. *)
Definition birdUpdater (snap : Game) (prev : Bird.t) : M Bird.t :=
  let newBird :=
    {| Bird.x := Bird.x prev;
       Bird.y := Bird.y prev + Bird.velocityY prev;
       Bird.velocityY := Bird.velocityY prev + GRAVITY |} in
  if checkCollision newBird (pipes snap) then
    setGameState gameOver ;;
    (if (score snap >? highScore snap)%Z
     then setHighScore (score snap) else ret tt) ;;
    ret prev
  else ret newBird.

(** The updater given to [setPipes] by [gameLoop]. *)
Definition pipesUpdater (r : Q) (snap : Game) (prev : list Pipe.t)
  : M (list Pipe.t) :=
  let newPipes :=
    map (fun pipe => Pipe.with_x (Pipe.x pipe - GAME_SPEED) pipe) prev in
  let newPipes :=
    filter (fun pipe => Qgtb (Pipe.x pipe) (- PIPE_WIDTH)) newPipes in
  frame <- getFrameCount ;;
  let newPipes :=
    if (Z.rem frame 100 =? 0)%Z then newPipes ++ [generatePipe r]
    else newPipes in
  forEachScore (Bird.x (bird snap)) newPipes.

(** [gameLoop] as created by the render whose state is [snap]; [r] is
    what [Math.random()] returns if it is called. *)
Definition gameLoop (r : Q) (snap : Game) : M unit :=
  match gameState snap with
  | playing =>
      n <- getFrameCount ;;
      setFrameCount (n + 1) ;;
      setBird (birdUpdater snap) ;;
      setPipes (pipesUpdater r snap)
  | _ => ret tt
  end.

(** ** Events: one atomic transition each *)

Inductive Event : Type :=
| Tick (r : Q)      (* the animation frame fires *)
| Activate          (* a touch on the game view *)
| PlayAgain.        (* the button of the game-over overlay *)

Definition step (e : Event) (s : Game) : Game :=
  match e with
  | Tick r => exec (gameLoop r s) s
  | Activate => exec (jump s) s
  | PlayAgain =>
      match gameState s with
      | gameOver => exec resetGame s
      | _ => s
      end
  end.

Definition run (es : list Event) (s : Game) : Game :=
  fold_left (fun acc e => step e acc) es s.

End FlappyBird.

(** ** What one frame does to the pipes, as plain functions

    These are not in the source; they name the three stages of the
    [setPipes] updater so that the theorems can speak about them.
    [pipesUpdater_run] below proves that the updater computes them. *)

(** [pipe => ({ ...pipe, x: pipe.x - GAME_SPEED })] *)
Definition movePipe (pipe : Pipe.t) : Pipe.t :=
  Pipe.with_x (Pipe.x pipe - GAME_SPEED) pipe.

(** [pipe => pipe.x > -PIPE_WIDTH] *)
Definition onScreen (pipe : Pipe.t) : bool :=
  Qgtb (Pipe.x pipe) (- PIPE_WIDTH).

Definition advancePipes (ps : list Pipe.t) : list Pipe.t :=
  filter onScreen (map movePipe ps).

(** The pipes the scoring pass of a frame walks over: the old ones moved
    and pruned, then the new one if this is a spawning frame. *)
Definition streamAt (screenWidth screenHeight : Q) (r : Q) (frame : Z)
    (ps : list Pipe.t) : list Pipe.t :=
  if (Z.rem frame 100 =? 0)%Z
  then advancePipes ps ++ [generatePipe screenWidth screenHeight r]
  else advancePipes ps.

(** The condition of the scoring [if]. *)
Definition justPassed (birdX : Q) (pipe : Pipe.t) : bool :=
  negb (Pipe.scored pipe) && Qltb (Pipe.x pipe + PIPE_WIDTH) birdX.

Definition scorePipe (birdX : Q) (pipe : Pipe.t) : Pipe.t :=
  if justPassed birdX pipe then Pipe.mark_scored pipe else pipe.

Fixpoint countPassed (birdX : Q) (ps : list Pipe.t) : Z :=
  match ps with
  | [] => 0
  | pipe :: rest =>
      ((if justPassed birdX pipe then 1 else 0) + countPassed birdX rest)%Z
  end.

Definition unscored (ps : list Pipe.t) : list Pipe.t :=
  filter (fun pipe => negb (Pipe.scored pipe)) ps.

(** [newBird] of the updater [gameLoop] gives to [setBird]: the bird after
    a frame that does not end the game. *)
Definition fall (prev : Bird.t) : Bird.t :=
  {| Bird.x := Bird.x prev;
     Bird.y := Bird.y prev + Bird.velocityY prev;
     Bird.velocityY := Bird.velocityY prev + GRAVITY |}.

(** ** Sample states and runs used by the examples below

    Unless said otherwise the screen is 400 wide and 800 high. *)

(** The state right after the opening tap. *)
Definition justTapped : Game :=
  {| gameState := playing; score := 0; highScore := 0;
     bird := {| Bird.x := 100; Bird.y := 400; Bird.velocityY := -12 |};
     pipes := []; frameCount := 0 |}.

(** Frame 99 of the first game: no pipe has spawned yet. *)
Definition beforeFirstSpawn : Game :=
  {| gameState := playing; score := 0; highScore := 0;
     bird := {| Bird.x := 100; Bird.y := 340; Bird.velocityY := -36 # 5 |};
     pipes := []; frameCount := 99 |}.

(** A later frame of a first game: eight taps, 31 frames apart, then 14
    frames of free fall.  The pipe spawned at frame 100 has been passed
    (one point) and has left the screen, the pipe spawned at frame 200
    (both with [Math.random() = 0.5]) is still ahead, and the bird is one
    frame above the ground line [800 - 100 - 30 = 670]. *)
Definition lastFrameAloft : Game :=
  {| gameState := playing; score := 1; highScore := 0;
     bird := {| Bird.x := 100; Bird.y := 652; Bird.velocityY := 24 |};
     pipes := [ {| Pipe.x := 214; Pipe.topHeight := 250;
                   Pipe.bottomY := 450; Pipe.scored := false |} ];
     frameCount := 262 |}.

(** The state one frame after [lastFrameAloft]: the bird would have
    reached [y = 676], below the ground line, so the game is over. *)
Definition landed : Game :=
  {| gameState := gameOver; score := 1; highScore := 1;
     bird := {| Bird.x := 100; Bird.y := 652; Bird.velocityY := 24 |};
     pipes := [ {| Pipe.x := 211; Pipe.topHeight := 250;
                   Pipe.bottomY := 450; Pipe.scored := false |} ];
     frameCount := 263 |}.

(** A frame of a game on a screen 390 wide and 844 high, tapped every 31
    frames: at frame 249 the first pipe, spawned at [x = 390] at frame
    100, stands at [x = 390 - 3 * 149 = -57]. *)
Definition pipeAboutToLeave : Game :=
  {| gameState := playing; score := 1; highScore := 0;
     bird := {| Bird.x := 100; Bird.y := 410; Bird.velocityY := -56 # 5 |};
     pipes := [ {| Pipe.x := -57; Pipe.topHeight := 272;
                   Pipe.bottomY := 472; Pipe.scored := true |};
                {| Pipe.x := 243; Pipe.topHeight := 272;
                   Pipe.bottomY := 472; Pipe.scored := false |} ];
     frameCount := 249 |}.

(** [n] frames in a row, and [k] rounds of a tap followed by [n] frames. *)
Definition frames (n : nat) (r : Q) : list Event := repeat (Tick r) n.

Definition taps (k n : nat) (r : Q) : list Event :=
  concat (repeat (Activate :: frames n r) k).

(** Every number of a state in lowest terms, to compare the result of a
    run with a state written by hand. *)
Definition reducedBird (b : Bird.t) : Bird.t :=
  {| Bird.x := Qred (Bird.x b); Bird.y := Qred (Bird.y b);
     Bird.velocityY := Qred (Bird.velocityY b) |}.

Definition reducedPipe (p : Pipe.t) : Pipe.t :=
  {| Pipe.x := Qred (Pipe.x p); Pipe.topHeight := Qred (Pipe.topHeight p);
     Pipe.bottomY := Qred (Pipe.bottomY p); Pipe.scored := Pipe.scored p |}.

Definition reduced (g : Game) : Game :=
  {| gameState := gameState g; score := score g; highScore := highScore g;
     bird := reducedBird (bird g); pipes := map reducedPipe (pipes g);
     frameCount := frameCount g |}.

(** Two states that agree up to the representation of their numbers: the
    same rationals, possibly as different fractions. *)
Definition sameBird (b b' : Bird.t) : Prop :=
  Bird.x b == Bird.x b' /\ Bird.y b == Bird.y b' /\
  Bird.velocityY b == Bird.velocityY b'.

Definition samePipe (p p' : Pipe.t) : Prop :=
  Pipe.x p == Pipe.x p' /\ Pipe.topHeight p == Pipe.topHeight p' /\
  Pipe.bottomY p == Pipe.bottomY p' /\ Pipe.scored p = Pipe.scored p'.

Definition sameGame (g g' : Game) : Prop :=
  gameState g = gameState g' /\ score g = score g' /\
  highScore g = highScore g' /\ sameBird (bird g) (bird g') /\
  Forall2 samePipe (pipes g) (pipes g') /\ frameCount g = frameCount g'.

(** [run] with every number brought to lowest terms after each event. *)
Definition runReduced (screenWidth screenHeight : Q) (es : list Event)
    (s : Game) : Game :=
  fold_left (fun acc e => reduced (step screenWidth screenHeight e acc)) es s.

(** What the scoring examples look at. *)
Definition digest (g : Game) : Z * Z * list bool :=
  (frameCount g, score g, map Pipe.scored (pipes g)).

(** Frame 100 of a game on a screen 400 wide and only 300 high, with
    [Math.random() = 0.9]. *)
Definition lowScreenAtFrame100 : Game :=
  {| gameState := playing; score := 0; highScore := 0;
     bird := {| Bird.x := 100; Bird.y := 414 # 5; Bird.velocityY := -32 # 5 |};
     pipes := [ {| Pipe.x := 400; Pipe.topHeight := -40;
                   Pipe.bottomY := 160; Pipe.scored := false |} ];
     frameCount := 100 |}.

(** The words of the collision contract: two half-open spans
    [[a, a + w)] and [[b, b + v)] have a point in common. *)
Definition spansOverlap (a w b v : Q) : Prop :=
  exists t : Q, a <= t /\ t < a + w /\ b <= t /\ t < b + v.

(** Points and pipes still to be scored never exceed the pipes spawned so
    far, one per hundred frames. *)
Definition accounted (g : Game) : Prop :=
  (0 <= frameCount g /\
   score g + Z.of_nat (length (unscored (pipes g))) <= frameCount g / 100)%Z.

(** ** What the view computes from the state

    The numbers in the JSX of the component that are computed and not
    just read off the state. *)

(** [rotate: `${Math.min(bird.velocityY * 3, 45)}deg`] *)
Definition birdRotation (b : Bird.t) : Q := Qmin (Bird.velocityY b * 3) 45.

(** The top pipe is drawn from [top: 0] with [height: pipe.topHeight]. *)
Definition topPipeHeight (pipe : Pipe.t) : Q := Pipe.topHeight pipe.

(** [height: screenHeight - pipe.bottomY - 100], drawn from
    [top: pipe.bottomY]. *)
Definition bottomPipeHeight (screenHeight : Q) (pipe : Pipe.t) : Q :=
  screenHeight - Pipe.bottomY pipe - 100.

(** [High Score: {Math.max(score, highScore)}] of the game-over overlay. *)
Definition shownHighScore (g : Game) : Z := Z.max (score g) (highScore g).

(** [{highScore > 0 && (<Text>High Score: {highScore}</Text>)}] of the
    waiting overlay: the number shown, if any. *)
Definition waitingHighScoreLine (g : Game) : option Z :=
  if (highScore g >? 0)%Z then Some (highScore g) else None.

(** Frame 100 of the first game on the sample screen: the first pipe has
    just spawned, with [Math.random() = 0.5]. *)
Definition firstPipeSpawned : Game :=
  {| gameState := playing; score := 0; highScore := 0;
     bird := {| Bird.x := 100; Bird.y := 1664 # 5;
                Bird.velocityY := -32 # 5 |};
     pipes := [ {| Pipe.x := 400; Pipe.topHeight := 250;
                   Pipe.bottomY := 450; Pipe.scored := false |} ];
     frameCount := 100 |}.

(** Frame 216 of a first game on a screen 390 wide and 844 high, tapped
    every 31 frames, with [Math.random() = 0.4375] at both spawns: the
    gap of the pipes is from [244.25] to [444.25], the first pipe stands
    at [x = 390 - 3 * 116 = 42], still over the bird's span, and has not
    been passed yet. *)
Definition lastPointAhead : Game :=
  {| gameState := playing; score := 0; highScore := 0;
     bird := {| Bird.x := 100; Bird.y := 410; Bird.velocityY := 12 |};
     pipes := [ {| Pipe.x := 42; Pipe.topHeight := 977 # 4;
                   Pipe.bottomY := 1777 # 4; Pipe.scored := false |};
                {| Pipe.x := 342; Pipe.topHeight := 977 # 4;
                   Pipe.bottomY := 1777 # 4; Pipe.scored := false |} ];
     frameCount := 216 |}.

(** The state one frame after [lastPointAhead]. *)
Definition lastPointLost : Game :=
  {| gameState := gameOver; score := 1; highScore := 0;
     bird := {| Bird.x := 100; Bird.y := 410; Bird.velocityY := 12 |};
     pipes := [ {| Pipe.x := 39; Pipe.topHeight := 977 # 4;
                   Pipe.bottomY := 1777 # 4; Pipe.scored := true |};
                {| Pipe.x := 339; Pipe.topHeight := 977 # 4;
                   Pipe.bottomY := 1777 # 4; Pipe.scored := false |} ];
     frameCount := 217 |}.

(** ** Predicates used by the further properties *)

(** [Math.random()] answers in [[0, 1)]. *)
Definition validEvent (e : Event) : Prop :=
  match e with
  | Tick r => 0 <= r /\ r < 1
  | _ => True
  end.

Definition isTick (e : Event) : Prop :=
  match e with
  | Tick _ => True
  | _ => False
  end.

(** The bird as every game keeps it: at [x = 100], never faster upwards
    than a fresh jump. *)
Definition birdOnTrack (g : Game) : Prop :=
  Bird.x (bird g) = 100 /\ JUMP_FORCE <= Bird.velocityY (bird g).

(** The bird between the ceiling and the ground line. *)
Definition birdInBounds (screenHeight : Q) (g : Game) : Prop :=
  0 <= Bird.y (bird g) /\ Bird.y (bird g) <= screenHeight - 100 - BIRD_SIZE.

(** The pipes stand [GAME_SPEED * 100] apart and the last one at
    [lastX]: the pipe with [n] pipes after it is at
    [lastX - n * (GAME_SPEED * 100)]. *)
Fixpoint evenly (lastX : Q) (ps : list Pipe.t) : Prop :=
  match ps with
  | [] => True
  | pipe :: rest =>
      Pipe.x pipe ==
        lastX - inject_Z (Z.of_nat (length rest)) * (GAME_SPEED * 100) /\
      evenly lastX rest
  end.

(** Each pipe is exactly [GAME_SPEED * 100] right of the one before. *)
Fixpoint spaced (ps : list Pipe.t) : Prop :=
  match ps with
  | [] => True
  | pipe :: rest =>
      match rest with
      | [] => True
      | next :: _ => Pipe.x next == Pipe.x pipe + GAME_SPEED * 100
      end /\ spaced rest
  end.

(** A pipe as [generatePipe] makes it on a screen high enough. *)
Definition wellFormedPipe (screenHeight : Q) (pipe : Pipe.t) : Prop :=
  Pipe.bottomY pipe = Pipe.topHeight pipe + PIPE_GAP /\
  minHeight <= Pipe.topHeight pipe /\
  Pipe.topHeight pipe <= maxHeight screenHeight.

(** * Basic facts *)

Lemma Qltb_lt (a b : Q) : Qltb a b = true <-> a < b.
Proof. unfold Qltb. rewrite Qlt_alt. destruct (a ?= b); split; congruence. Qed.

Lemma Qltb_ge (a b : Q) : Qltb a b = false <-> b <= a.
Proof.
  rewrite <- not_true_iff_false, Qltb_lt. split.
  - apply Qnot_lt_le.
  - apply Qle_not_lt.
Qed.

Lemma Qgtb_gt (a b : Q) : Qgtb a b = true <-> b < a.
Proof. apply Qltb_lt. Qed.

Lemma Qgtb_le (a b : Q) : Qgtb a b = false <-> a <= b.
Proof. apply Qltb_ge. Qed.

(** Turn the boolean tests of the goal and of the hypotheses into
    propositions on [Q]. *)
Ltac reflect_Q :=
  repeat match goal with
    | H : Qgtb _ _ = true |- _ => apply Qgtb_gt in H
    | H : Qgtb _ _ = false |- _ => apply Qgtb_le in H
    | H : Qltb _ _ = true |- _ => apply Qltb_lt in H
    | H : Qltb _ _ = false |- _ => apply Qltb_ge in H
    | |- Qgtb _ _ = true => apply Qgtb_gt
    | |- Qgtb _ _ = false => apply Qgtb_le
    | |- Qltb _ _ = true => apply Qltb_lt
    | |- Qltb _ _ = false => apply Qltb_ge
    end.

Section Frame.

Variables screenWidth screenHeight : Q.

Local Abbreviation generatePipe := (generatePipe screenWidth screenHeight).
Local Abbreviation checkCollision := (checkCollision screenHeight).
Local Abbreviation gameLoop := (gameLoop screenWidth screenHeight).
Local Abbreviation pipesUpdater := (pipesUpdater screenWidth screenHeight).
Local Abbreviation step := (step screenWidth screenHeight).
Local Abbreviation streamAt := (streamAt screenWidth screenHeight).

Lemma forEachScore_run (birdX : Q) (ps : list Pipe.t) (s : Game) :
  forEachScore birdX ps s =
    (map (scorePipe birdX) ps,
     mkGame (gameState s) (score s + countPassed birdX ps) (highScore s)
       (bird s) (pipes s) (frameCount s)).
Proof.
  revert s. induction ps as [|pipe rest IH]; intros s;
    cbn [forEachScore countPassed map].
  - unfold ret. rewrite Z.add_0_r. destruct s; reflexivity.
  - unfold bind, scorePipe. fold (justPassed birdX pipe).
    destruct (justPassed birdX pipe);
      unfold bind, setScore, ret; rewrite IH;
      cbn [gameState score highScore bird pipes frameCount];
      f_equal; try reflexivity; f_equal; lia.
Qed.

Lemma pipesUpdater_run (r : Q) (snap : Game) (prev : list Pipe.t) (s : Game) :
  pipesUpdater r snap prev s =
    (map (scorePipe (Bird.x (bird snap))) (streamAt r (frameCount s) prev),
     mkGame (gameState s)
       (score s + countPassed (Bird.x (bird snap))
                    (streamAt r (frameCount s) prev))
       (highScore s) (bird s) (pipes s) (frameCount s)).
Proof.
  unfold pipesUpdater, bind, getFrameCount. rewrite forEachScore_run.
  reflexivity.
Qed.

Lemma birdUpdater_run (snap : Game) (prev : Bird.t) (s : Game) :
  birdUpdater screenHeight snap prev s =
    let hit := checkCollision (fall prev) (pipes snap) in
    (if hit then prev else fall prev,
     mkGame (if hit then gameOver else gameState s) (score s)
       (if hit && (score snap >? highScore snap)%Z
        then score snap else highScore s)
       (bird s) (pipes s) (frameCount s)).
Proof.
  unfold birdUpdater. fold (fall prev).
  destruct (checkCollision (fall prev) (pipes snap));
    [destruct (score snap >? highScore snap)%Z|];
    destruct s; reflexivity.
Qed.

(** One frame of a running game, in closed form. *)
Lemma gameLoop_playing (r : Q) (s : Game) :
  gameState s = playing ->
  exec (gameLoop r s) s =
    let hit := checkCollision (fall (bird s)) (pipes s) in
    let stream := streamAt r (frameCount s + 1) (pipes s) in
    {| gameState := if hit then gameOver else playing;
       score := score s + countPassed (Bird.x (bird s)) stream;
       highScore := if hit && (score s >? highScore s)%Z
                    then score s else highScore s;
       bird := if hit then bird s else fall (bird s);
       pipes := map (scorePipe (Bird.x (bird s))) stream;
       frameCount := frameCount s + 1 |}.
Proof.
  intros Hplay. unfold exec, gameLoop. rewrite Hplay.
  unfold bind, getFrameCount, setFrameCount, setBird, setPipes.
  rewrite birdUpdater_run.
  cbn [bird pipes frameCount gameState score highScore].
  rewrite pipesUpdater_run.
  cbn [bird pipes frameCount gameState score highScore snd].
  rewrite Hplay. reflexivity.
Qed.

Lemma gameLoop_idle (r : Q) (s : Game) :
  gameState s <> playing -> exec (gameLoop r s) s = s.
Proof.
  intros Hidle. unfold exec, gameLoop.
  destruct (gameState s); [reflexivity | congruence | reflexivity].
Qed.

End Frame.

(** * Runs up to the representation of numbers

    [Q] does not reduce fractions, so the numbers of a long run grow.
    Every operation of the game respects equality of rationals, so a run
    may be followed with reduced numbers instead. *)

Lemma Qltb_comp (a a' b b' : Q) :
  a == a' -> b == b' -> Qltb a b = Qltb a' b'.
Proof. intros Ha Hb. unfold Qltb. rewrite Ha, Hb. reflexivity. Qed.

Lemma sameBird_refl (b : Bird.t) : sameBird b b.
Proof. repeat split; reflexivity. Qed.

Lemma samePipe_refl (p : Pipe.t) : samePipe p p.
Proof. repeat split; reflexivity. Qed.

Lemma samePipes_refl (ps : list Pipe.t) : Forall2 samePipe ps ps.
Proof. induction ps; constructor; [apply samePipe_refl | assumption]. Qed.

Lemma sameGame_refl (g : Game) : sameGame g g.
Proof.
  repeat split; try reflexivity. apply samePipes_refl.
Qed.

Lemma samePipes_trans (ps qs rs : list Pipe.t) :
  Forall2 samePipe ps qs -> Forall2 samePipe qs rs -> Forall2 samePipe ps rs.
Proof.
  intros Hpq. revert rs.
  induction Hpq as [|p q ps qs (Hx & Ht & Hb & Hs) _ IH]; intros rs Hqr;
    inversion Hqr as [|? r ? rs' (Hx' & Ht' & Hb' & Hs') Hrest]; subst;
    constructor.
  - repeat split; [rewrite Hx | rewrite Ht | rewrite Hb | rewrite Hs];
      assumption.
  - apply IH. exact Hrest.
Qed.

Lemma sameGame_trans (g h k : Game) :
  sameGame g h -> sameGame h k -> sameGame g k.
Proof.
  intros (Hs & Hsc & Hhs & (Hx & Hy & Hv) & Hps & Hf)
         (Hs' & Hsc' & Hhs' & (Hx' & Hy' & Hv') & Hps' & Hf').
  repeat split; try congruence.
  - rewrite Hx. exact Hx'.
  - rewrite Hy. exact Hy'.
  - rewrite Hv. exact Hv'.
  - exact (samePipes_trans _ _ _ Hps Hps').
Qed.

Lemma reduced_same (g : Game) : sameGame g (reduced g).
Proof.
  repeat split; cbn; try (symmetry; apply Qred_correct).
  induction (pipes g) as [|p ps IH]; cbn [map]; constructor; [|exact IH].
  repeat split; cbn; symmetry; apply Qred_correct.
Qed.

Lemma fall_same (b b' : Bird.t) : sameBird b b' -> sameBird (fall b) (fall b').
Proof.
  intros (Hx & Hy & Hv). repeat split; cbn; rewrite ?Hx, ?Hy, ?Hv; reflexivity.
Qed.

Lemma hitsPipe_same (b b' : Bird.t) (p p' : Pipe.t) :
  sameBird b b' -> samePipe p p' -> hitsPipe b p = hitsPipe b' p'.
Proof.
  intros (Hx & Hy & Hv) (Hpx & Ht & Hb & Hs). unfold hitsPipe, Qgtb.
  rewrite (Qltb_comp (Pipe.x p) (Pipe.x p')
             (Bird.x b + BIRD_SIZE) (Bird.x b' + BIRD_SIZE))
    by (rewrite ?Hx; assumption || reflexivity).
  rewrite (Qltb_comp (Bird.x b) (Bird.x b')
             (Pipe.x p + PIPE_WIDTH) (Pipe.x p' + PIPE_WIDTH))
    by (rewrite ?Hpx; assumption || reflexivity).
  rewrite (Qltb_comp (Bird.y b) (Bird.y b')
             (Pipe.topHeight p) (Pipe.topHeight p')) by assumption.
  rewrite (Qltb_comp (Pipe.bottomY p) (Pipe.bottomY p')
             (Bird.y b + BIRD_SIZE) (Bird.y b' + BIRD_SIZE))
    by (rewrite ?Hy; assumption || reflexivity).
  reflexivity.
Qed.

Lemma checkCollision_same (screenHeight : Q) (b b' : Bird.t)
    (ps ps' : list Pipe.t) :
  sameBird b b' -> Forall2 samePipe ps ps' ->
  checkCollision screenHeight b ps = checkCollision screenHeight b' ps'.
Proof.
  intros Hb Hps. unfold checkCollision, Qgtb.
  destruct Hb as (Hx & Hy & Hv).
  rewrite (Qltb_comp (screenHeight - 100 - BIRD_SIZE)
             (screenHeight - 100 - BIRD_SIZE) (Bird.y b) (Bird.y b'))
    by (assumption || reflexivity).
  rewrite (Qltb_comp (Bird.y b) (Bird.y b') 0 0)
    by (assumption || reflexivity).
  assert (Hloop : pipeLoop b ps = pipeLoop b' ps').
  { induction Hps as [|p p' ps ps' Hp _ IH]; cbn [pipeLoop]; [reflexivity|].
    rewrite (hitsPipe_same b b' p p')
      by first [exact Hp | repeat split; assumption].
    rewrite IH. reflexivity. }
  rewrite Hloop. reflexivity.
Qed.

Lemma advancePipes_same (ps ps' : list Pipe.t) :
  Forall2 samePipe ps ps' ->
  Forall2 samePipe (advancePipes ps) (advancePipes ps').
Proof.
  unfold advancePipes.
  induction 1 as [|p p' ps ps' (Hx & Ht & Hb & Hs) _ IH]; cbn [map filter];
    [constructor|].
  assert (Hon : onScreen (movePipe p) = onScreen (movePipe p')).
  { unfold onScreen, Qgtb. cbn. apply Qltb_comp; [reflexivity|].
    rewrite Hx. reflexivity. }
  rewrite Hon. destruct (onScreen (movePipe p')); [constructor|]; try exact IH.
  repeat split; cbn; rewrite ?Hx; assumption || reflexivity.
Qed.

Lemma justPassed_same (birdX birdX' : Q) (p p' : Pipe.t) :
  birdX == birdX' -> samePipe p p' ->
  justPassed birdX p = justPassed birdX' p'.
Proof.
  intros HX (Hx & Ht & Hb & Hs). unfold justPassed. rewrite Hs.
  rewrite (Qltb_comp (Pipe.x p + PIPE_WIDTH) (Pipe.x p' + PIPE_WIDTH)
             birdX birdX') by (rewrite ?Hx; assumption || reflexivity).
  reflexivity.
Qed.

Lemma scorePipes_same (birdX birdX' : Q) (ps ps' : list Pipe.t) :
  birdX == birdX' -> Forall2 samePipe ps ps' ->
  Forall2 samePipe (map (scorePipe birdX) ps) (map (scorePipe birdX') ps') /\
  countPassed birdX ps = countPassed birdX' ps'.
Proof.
  intros HX. induction 1 as [|p p' ps ps' Hp _ [IHmap IHcount]];
    cbn [map countPassed]; [split; [constructor | reflexivity]|].
  unfold scorePipe. rewrite (justPassed_same birdX birdX' p p' HX Hp), IHcount.
  split; [|reflexivity]. constructor; [|exact IHmap].
  destruct (justPassed birdX' p'); [|exact Hp].
  destruct Hp as (Hx & Ht & Hb & Hs). repeat split; assumption.
Qed.

Section SameRuns.

Variables screenWidth screenHeight : Q.

Local Abbreviation step := (step screenWidth screenHeight).
Local Abbreviation run := (run screenWidth screenHeight).
Local Abbreviation runReduced := (runReduced screenWidth screenHeight).

Lemma step_same (e : Event) (g g' : Game) :
  sameGame g g' -> sameGame (step e g) (step e g').
Proof.
  intros Hsame.
  pose proof Hsame as (Hs & Hsc & Hhs & Hb & Hps & Hf).
  destruct e as [r| |]; unfold step.
  - destruct (gameState g) eqn:Hstate;
      try (rewrite !gameLoop_idle by congruence; exact Hsame).
    rewrite !gameLoop_playing by congruence. cbn zeta.
    rewrite <- (checkCollision_same screenHeight (fall (bird g))
                  (fall (bird g')) (pipes g) (pipes g'))
      by (try apply fall_same; assumption).
    rewrite <- Hsc, <- Hhs, <- Hf.
    assert (Hstream : Forall2 samePipe
              (streamAt screenWidth screenHeight r (frameCount g + 1) (pipes g))
              (streamAt screenWidth screenHeight r (frameCount g + 1) (pipes g'))).
    { unfold streamAt. destruct (Z.rem (frameCount g + 1) 100 =? 0)%Z.
      - apply Forall2_app; [apply advancePipes_same; exact Hps |].
        apply samePipes_refl.
      - apply advancePipes_same; exact Hps. }
    destruct (scorePipes_same (Bird.x (bird g)) (Bird.x (bird g')) _ _
                (proj1 Hb) Hstream) as [Hmap Hcount].
    rewrite <- Hcount.
    repeat split; cbn [gameState score highScore bird pipes frameCount];
      try reflexivity; try exact Hmap;
      destruct (checkCollision screenHeight (fall (bird g)) (pipes g));
      first [apply Hb | apply (fall_same _ _ Hb)].
  - unfold jump. rewrite <- Hs.
    destruct (gameState g) eqn:Hstate; unfold sameGame, sameBird; cbn;
      repeat split; try assumption; try reflexivity; try congruence;
      try apply Hb; constructor.
  - rewrite <- Hs. destruct (gameState g) eqn:Hstate; try exact Hsame.
    unfold sameGame, sameBird; cbn.
    repeat split; try assumption; try reflexivity; constructor.
Qed.

Lemma run_runReduced (es : list Event) (g g' : Game) :
  sameGame g g' -> sameGame (run es g) (runReduced es g').
Proof.
  revert g g'. unfold run, runReduced.
  induction es as [|e es IH]; intros g g' Hsame; cbn [fold_left];
    [exact Hsame|].
  apply IH. apply (sameGame_trans _ (step e g')).
  - apply step_same. exact Hsame.
  - apply reduced_same.
Qed.

(** To show that a game reaches a state, it is enough to follow it with
    reduced numbers. *)
Lemma reaches (es : list Event) (target : Game) :
  runReduced es (FlappyBird screenHeight) = target ->
  sameGame (run es (FlappyBird screenHeight)) target.
Proof.
  intros <-. apply run_runReduced, sameGame_refl.
Qed.

End SameRuns.

Lemma digest_same (g g' : Game) : sameGame g g' -> digest g = digest g'.
Proof.
  intros (_ & Hscore & _ & _ & Hpipes & Hframe). unfold digest.
  rewrite Hscore, Hframe. f_equal.
  induction Hpipes as [|p p' ps ps' (_ & _ & _ & Hscored) _ IH];
    cbn [map]; [reflexivity|].
  rewrite Hscored, IH. reflexivity.
Qed.

(** * C1: the physics integrator *)

Section Physics.

Variables screenWidth screenHeight : Q.

Local Abbreviation checkCollision := (checkCollision screenHeight).
Local Abbreviation step := (step screenWidth screenHeight).

(** C1 (as amended).  On a frame of a running game that does not collide,
    the bird that is committed has [velocityY' = velocityY + GRAVITY] and
    [y' = y + velocityY], where [velocityY] is the velocity _before_ the
    frame: the position is advanced by the old velocity, and gravity
    reaches the position one frame later.  Nothing is clamped: the
    equations hold for every value of [y] and [velocityY].  [x] is left
    alone. *)
Theorem tick_integrates_with_old_velocity (r : Q) (s : Game) :
  gameState s = playing ->
  checkCollision (fall (bird s)) (pipes s) = false ->
  let b := bird s in
  let b' := bird (step (Tick r) s) in
  Bird.velocityY b' = Bird.velocityY b + GRAVITY /\
  Bird.y b' = Bird.y b + Bird.velocityY b /\
  Bird.y b' + GRAVITY == Bird.y b + Bird.velocityY b' /\
  Bird.x b' = Bird.x b /\
  gameState (step (Tick r) s) = playing.
Proof.
  intros Hplay Hfree. cbn zeta. unfold step.
  rewrite gameLoop_playing by exact Hplay. cbn zeta. rewrite Hfree.
  cbn [bird gameState fall Bird.x Bird.y Bird.velocityY].
  repeat split; try reflexivity. ring.
Qed.

End Physics.

Lemma tick_integrates_with_old_velocity_witness :
  let s := justTapped in
  gameState s = playing /\
  checkCollision 800 (fall (bird s)) (pipes s) = false /\
  Bird.velocityY (bird (step 400 800 (Tick 0.5) s)) = -12 + GRAVITY /\
  Bird.y (bird (step 400 800 (Tick 0.5) s)) = 400 + -12.
Proof.
  assert (Hplay : gameState justTapped = playing) by reflexivity.
  assert (Hfree : checkCollision 800 (fall (bird justTapped))
                    (pipes justTapped) = false) by (vm_compute; reflexivity).
  split; [exact Hplay | split; [exact Hfree |]].
  destruct (tick_integrates_with_old_velocity 400 800 0.5 justTapped
              Hplay Hfree) as (Hv & Hy & _).
  split; [exact Hv | exact Hy].
Defined.

(** C1 as the specification words it fails on the first frame after the
    opening tap (screen 400 x 800, bird at [y = 400] with
    [velocityY = -12]): the frame does not collide, the new velocity is
    [-11.2], and the new position is [388 = 400 + (-12)], not
    [388.8 = 400 + (-11.2)]. *)
Lemma semi_implicit_step_fails_after_tap :
  let s := justTapped in
  let s' := step 400 800 (Tick 0.5) s in
  gameState s = playing /\
  checkCollision 800 (fall (bird s)) (pipes s) = false /\
  Bird.velocityY (bird s') == Bird.velocityY (bird s) + GRAVITY /\
  Bird.y (bird s') == 388 /\
  ~ Bird.y (bird s') == Bird.y (bird s) + Bird.velocityY (bird s').
Proof.
  cbn zeta. repeat split; try (vm_compute; reflexivity).
  vm_compute. discriminate.
Qed.

(** The sample states are states of games from the mount. *)
Example justTapped_reached :
  sameGame (run 400 800 [Activate] (FlappyBird 800)) justTapped.
Proof. apply reaches. vm_compute. reflexivity. Qed.

Example lastFrameAloft_reached :
  sameGame (run 400 800 (taps 8 31 0.5 ++ frames 14 0.5) (FlappyBird 800))
    lastFrameAloft.
Proof. apply reaches. vm_compute. reflexivity. Qed.

Example pipeAboutToLeave_reached :
  sameGame (run 390 844 (taps 8 31 0.5 ++ Activate :: frames 1 0.5)
              (FlappyBird 844))
    pipeAboutToLeave.
Proof. apply reaches. vm_compute. reflexivity. Qed.

Example landed_reached :
  reduced (step 400 800 (Tick 0.5) lastFrameAloft) = landed.
Proof. vm_compute. reflexivity. Qed.

(** * C2: the frame that ends the game *)

Section FinalFrame.

Variables screenWidth screenHeight : Q.

Local Abbreviation checkCollision := (checkCollision screenHeight).
Local Abbreviation step := (step screenWidth screenHeight).
Local Abbreviation streamAt := (streamAt screenWidth screenHeight).

(** C2 (as amended).  On a frame of a running game whose newly integrated
    bird collides (against the pipes as they were before the frame), the
    phase becomes [gameOver] and the bird keeps its value from before the
    frame, position and velocity.  The pipes, however, are advanced and
    scored on that frame as on any other: the frame counter is
    incremented, the pipes are moved and pruned, a pipe is spawned if the
    incremented counter is a multiple of 100, and the scoring pass runs.
    The last part says it without naming the stages: pipes, score and
    frame counter after the frame are those of any running game with the
    same pipes, score, counter and bird [x], whether it collides or
    not. *)
Theorem colliding_tick_keeps_bird_but_advances_pipes (r : Q) (s : Game) :
  gameState s = playing ->
  checkCollision (fall (bird s)) (pipes s) = true ->
  let s' := step (Tick r) s in
  let stream := streamAt r (frameCount s + 1) (pipes s) in
  gameState s' = gameOver /\
  bird s' = bird s /\
  frameCount s' = (frameCount s + 1)%Z /\
  pipes s' = map (scorePipe (Bird.x (bird s))) stream /\
  score s' = (score s + countPassed (Bird.x (bird s)) stream)%Z /\
  forall s2 : Game,
    gameState s2 = playing ->
    pipes s2 = pipes s -> score s2 = score s ->
    frameCount s2 = frameCount s -> Bird.x (bird s2) = Bird.x (bird s) ->
    pipes (step (Tick r) s2) = pipes s' /\
    score (step (Tick r) s2) = score s' /\
    frameCount (step (Tick r) s2) = frameCount s'.
Proof.
  intros Hplay Hhit. cbn zeta. unfold step.
  rewrite gameLoop_playing by exact Hplay. cbn zeta. rewrite Hhit.
  cbn [gameState bird frameCount pipes score].
  repeat split; try reflexivity;
    rewrite gameLoop_playing by assumption; cbn zeta;
    cbn [gameState bird frameCount pipes score]; congruence.
Qed.

End FinalFrame.

Lemma colliding_tick_keeps_bird_but_advances_pipes_witness :
  let s := lastFrameAloft in
  let s' := step 400 800 (Tick 0.5) s in
  gameState s = playing /\
  checkCollision 800 (fall (bird s)) (pipes s) = true /\
  gameState s' = gameOver /\ bird s' = bird s /\
  frameCount s' = 263%Z.
Proof.
  assert (Hplay : gameState lastFrameAloft = playing) by reflexivity.
  assert (Hhit : checkCollision 800 (fall (bird lastFrameAloft))
                   (pipes lastFrameAloft) = true) by (vm_compute; reflexivity).
  split; [exact Hplay | split; [exact Hhit |]].
  destruct (colliding_tick_keeps_bird_but_advances_pipes 400 800 0.5
              lastFrameAloft Hplay Hhit) as (Hover & Hbird & Hframe & _).
  split; [exact Hover | split; [exact Hbird | exact Hframe]].
Defined.

(** C2 as the specification words it fails at [lastFrameAloft]: the
    frame takes the bird to [y = 676 > 670], so the game ends and the bird
    stays at [y = 652]; but the frame counter goes from 262 to 263 and the
    pipe moves from [x = 214] to [x = 211]. *)
Lemma pipes_advance_on_final_frame :
  let s := lastFrameAloft in
  let s' := step 400 800 (Tick 0.5) s in
  gameState s = playing /\
  checkCollision 800 (fall (bird s)) (pipes s) = true /\
  gameState s' = gameOver /\
  bird s' = bird s /\
  map Pipe.x (pipes s) = [214] /\
  map Pipe.x (pipes s') = [211] /\
  ~ Forall2 Qeq (map Pipe.x (pipes s')) (map Pipe.x (pipes s)) /\
  frameCount s = 262%Z /\
  frameCount s' = 263%Z.
Proof.
  cbn zeta. repeat split; try (vm_compute; reflexivity).
  vm_compute. intros H. inversion H as [|? ? ? ? Hx _]; subst.
  discriminate Hx.
Qed.

(** * C3: the collision predicate *)

(** For spans of positive length, overlap is the pair of comparisons the
    source makes. *)
Lemma spansOverlap_iff (a w b v : Q) :
  0 < w -> 0 < v ->
  spansOverlap a w b v <-> (a < b + v /\ b < a + w).
Proof.
  intros Hw Hv. split.
  - intros (t & Hat & Hta & Hbt & Htb). split; lra.
  - intros [Hab Hba]. destruct (Qlt_le_dec a b) as [Hlt | Hle].
    + exists b. repeat split; lra.
    + exists a. repeat split; lra.
Qed.

Section Collision.

Variable screenHeight : Q.

Local Abbreviation checkCollision := (checkCollision screenHeight).

Lemma hitsPipe_iff (b : Bird.t) (pipe : Pipe.t) :
  hitsPipe b pipe = true <->
  spansOverlap (Pipe.x pipe) PIPE_WIDTH (Bird.x b) BIRD_SIZE /\
  (Bird.y b < Pipe.topHeight pipe \/
   Pipe.bottomY pipe < Bird.y b + BIRD_SIZE).
Proof.
  rewrite spansOverlap_iff by reflexivity. unfold hitsPipe.
  destruct (Qgtb (Bird.x b + BIRD_SIZE) (Pipe.x pipe)) eqn:E1;
    destruct (Qltb (Bird.x b) (Pipe.x pipe + PIPE_WIDTH)) eqn:E2;
    destruct (Qltb (Bird.y b) (Pipe.topHeight pipe)) eqn:E3;
    destruct (Qgtb (Bird.y b + BIRD_SIZE) (Pipe.bottomY pipe)) eqn:E4;
    cbn [andb orb]; reflect_Q; split;
    try discriminate; try reflexivity; try tauto;
    intros [[? ?] [? | ?]]; lra.
Qed.

Lemma pipeLoop_iff (b : Bird.t) (ps : list Pipe.t) :
  pipeLoop b ps = true <->
  exists pipe, In pipe ps /\ hitsPipe b pipe = true.
Proof.
  induction ps as [|pipe rest IH]; cbn [pipeLoop In].
  - split; [discriminate | intros (? & [] & _)].
  - destruct (hitsPipe b pipe) eqn:E.
    + split; [intros _; exists pipe; auto | reflexivity].
    + rewrite IH. split.
      * intros (q & Hin & Hq). exists q; auto.
      * intros (q & [<- | Hin] & Hq); [congruence | exists q; auto].
Qed.

(** C3.  [checkCollision] answers [true] exactly when the bird is below
    the ground line ([y > screenHeight - 100 - BIRD_SIZE]), or above the
    ceiling ([y < 0]), or some pipe's span [[x, x + PIPE_WIDTH)] overlaps
    the bird's span [[bird.x, bird.x + BIRD_SIZE)] while the bird is not
    inside the gap ([y < topHeight] or [y + BIRD_SIZE > bottomY]).  The
    ground and ceiling cases do not depend on the pipes: they are exactly
    the collisions there are without any pipe, and they are collisions
    with every list of pipes. *)
Theorem checkCollision_iff (b : Bird.t) (ps : list Pipe.t) :
  (checkCollision b ps = true <->
     (screenHeight - 100 - BIRD_SIZE < Bird.y b \/
      Bird.y b < 0 \/
      exists pipe : Pipe.t,
        In pipe ps /\
        spansOverlap (Pipe.x pipe) PIPE_WIDTH (Bird.x b) BIRD_SIZE /\
        (Bird.y b < Pipe.topHeight pipe \/
         Pipe.bottomY pipe < Bird.y b + BIRD_SIZE))) /\
  (checkCollision b [] = true <->
     (screenHeight - 100 - BIRD_SIZE < Bird.y b \/ Bird.y b < 0)) /\
  (screenHeight - 100 - BIRD_SIZE < Bird.y b \/ Bird.y b < 0 ->
   forall ps' : list Pipe.t, checkCollision b ps' = true).
Proof.
  assert (Hpipes : forall qs, pipeLoop b qs = true <->
            exists pipe : Pipe.t,
              In pipe qs /\
              spansOverlap (Pipe.x pipe) PIPE_WIDTH (Bird.x b) BIRD_SIZE /\
              (Bird.y b < Pipe.topHeight pipe \/
               Pipe.bottomY pipe < Bird.y b + BIRD_SIZE)).
  { intros qs. rewrite pipeLoop_iff. split; intros (q & Hin & Hq);
      exists q; (split; [exact Hin | apply hitsPipe_iff; exact Hq]). }
  unfold checkCollision.
  destruct (Qgtb (Bird.y b) (screenHeight - 100 - BIRD_SIZE)) eqn:Eg;
    [|destruct (Qltb (Bird.y b) 0) eqn:Ec]; reflect_Q.
  - repeat split; auto.
  - repeat split; auto.
  - split; [|split].
    + rewrite Hpipes. split; [auto |].
      intros [Hg | [Hc | Hp]]; [lra | lra | exact Hp].
    + cbn [pipeLoop]. split; [discriminate | intros [Hg | Hc]; lra].
    + intros [Hg | Hc]; lra.
Qed.

End Collision.

Lemma checkCollision_iff_witness :
  let b := {| Bird.x := 100; Bird.y := 676; Bird.velocityY := 24.8 |} in
  (800 - 100 - BIRD_SIZE < Bird.y b \/ Bird.y b < 0) /\
  checkCollision 800 b (pipes lastFrameAloft) = true.
Proof.
  assert (Hground : 800 - 100 - BIRD_SIZE < 676 \/ 676 < 0)
    by (left; reflexivity).
  split; [exact Hground |].
  exact (proj2 (proj2 (checkCollision_iff 800
           {| Bird.x := 100; Bird.y := 676; Bird.velocityY := 24.8 |} []))
           Hground (pipes lastFrameAloft)).
Defined.

(** * C4: the scoring pass *)

Lemma justPassed_scored (birdX : Q) (pipe : Pipe.t) :
  Pipe.scored pipe = true -> justPassed birdX pipe = false.
Proof. unfold justPassed. intros ->. reflexivity. Qed.

Lemma scorePipe_scored (birdX : Q) (pipe : Pipe.t) :
  Pipe.scored (scorePipe birdX pipe) =
    Pipe.scored pipe || Qltb (Pipe.x pipe + PIPE_WIDTH) birdX.
Proof.
  unfold scorePipe, justPassed. destruct pipe as [x top bottom [|]];
    cbn [Pipe.scored Pipe.x negb andb orb]; [reflexivity|].
  destruct (Qltb (x + PIPE_WIDTH) birdX); reflexivity.
Qed.

Lemma justPassed_scorePipe (birdX : Q) (pipe : Pipe.t) :
  justPassed birdX (scorePipe birdX pipe) = false.
Proof.
  unfold scorePipe. destruct (justPassed birdX pipe) eqn:E.
  - apply justPassed_scored. reflexivity.
  - exact E.
Qed.

Lemma scorePipe_idempotent (birdX : Q) (pipe : Pipe.t) :
  scorePipe birdX (scorePipe birdX pipe) = scorePipe birdX pipe.
Proof.
  unfold scorePipe at 1. rewrite justPassed_scorePipe. reflexivity.
Qed.

Lemma countPassed_filter (birdX : Q) (ps : list Pipe.t) :
  countPassed birdX ps = Z.of_nat (length (filter (justPassed birdX) ps)).
Proof.
  induction ps as [|pipe rest IH]; cbn [countPassed filter]; [reflexivity|].
  rewrite IH. destruct (justPassed birdX pipe); cbn [length]; lia.
Qed.

Lemma countPassed_scored (birdX : Q) (ps : list Pipe.t) :
  countPassed birdX (map (scorePipe birdX) ps) = 0%Z.
Proof.
  induction ps as [|pipe rest IH]; cbn [countPassed map]; [reflexivity|].
  rewrite justPassed_scorePipe, IH. reflexivity.
Qed.

(** A scoring pass turns exactly [countPassed] unscored pipes into scored
    ones. *)
Lemma unscored_scorePipe (birdX : Q) (ps : list Pipe.t) :
  Z.of_nat (length (unscored ps)) =
    (countPassed birdX ps
     + Z.of_nat (length (unscored (map (scorePipe birdX) ps))))%Z.
Proof.
  unfold unscored.
  induction ps as [|pipe rest IH]; cbn [countPassed map filter];
    [reflexivity|].
  rewrite scorePipe_scored. unfold justPassed.
  destruct (Pipe.scored pipe), (Qltb (Pipe.x pipe + PIPE_WIDTH) birdX);
    cbn [negb andb orb length]; lia.
Qed.

Lemma unscored_advancePipes (ps : list Pipe.t) :
  (length (unscored (advancePipes ps)) <= length (unscored ps))%nat.
Proof.
  unfold unscored, advancePipes.
  induction ps as [|pipe rest IH]; cbn [map filter]; [lia|].
  destruct (onScreen (movePipe pipe)); cbn [filter movePipe Pipe.with_x Pipe.scored];
    destruct (Pipe.scored pipe); cbn [negb length]; lia.
Qed.

Lemma unscored_app (ps qs : list Pipe.t) :
  length (unscored (ps ++ qs)) =
    (length (unscored ps) + length (unscored qs))%nat.
Proof. unfold unscored. rewrite filter_app, length_app. reflexivity. Qed.

Section Accounting.

Variables screenWidth screenHeight : Q.

Local Abbreviation step := (step screenWidth screenHeight).
Local Abbreviation run := (run screenWidth screenHeight).
Local Abbreviation streamAt := (streamAt screenWidth screenHeight).

Lemma resetGame_run (s : Game) :
  exec (resetGame screenHeight) s =
    mkGame waiting 0 (highScore s) (initialBird screenHeight) [] 0.
Proof. reflexivity. Qed.

Lemma accounted_step (e : Event) (g : Game) :
  accounted g -> accounted (step e g).
Proof.
  intros [Hframe Hacc]. destruct e as [r| |]; unfold step.
  - destruct (gameState g) eqn:Hstate;
      try (rewrite gameLoop_idle by congruence; split; assumption).
    rewrite gameLoop_playing by exact Hstate. cbn zeta.
    unfold accounted. cbn [frameCount score pipes].
    pose proof (unscored_scorePipe (Bird.x (bird g))
                  (streamAt r (frameCount g + 1) (pipes g))) as Hpass.
    pose proof (unscored_advancePipes (pipes g)) as Hadv.
    assert (Hstream :
      (Z.of_nat (length (unscored (streamAt r (frameCount g + 1) (pipes g))))
       + frameCount g / 100
       <= Z.of_nat (length (unscored (pipes g))) + (frameCount g + 1) / 100)%Z).
    { unfold streamAt.
      destruct (Z.rem (frameCount g + 1) 100 =? 0)%Z eqn:Hspawn.
      - apply Z.eqb_eq in Hspawn. rewrite unscored_app.
        cbn [unscored filter generatePipe Pipe.scored negb length].
        Z.to_euclidean_division_equations; lia.
      - Z.to_euclidean_division_equations; lia. }
    lia.
  - unfold jump. destruct (gameState g); split; cbn; try assumption; lia.
  - destruct (gameState g); try (split; assumption).
    rewrite resetGame_run. split; cbn; lia.
Qed.

Lemma accounted_run (es : list Event) (g : Game) :
  accounted g -> accounted (run es g).
Proof.
  revert g. unfold run.
  induction es as [|e es IH]; intros g Hg; cbn [fold_left].
  - exact Hg.
  - apply IH, accounted_step, Hg.
Qed.

End Accounting.

(** C4.  The scoring pass [forEachScore] leaves every pipe where it is and
    sets [scored] on exactly the pipes that were not yet scored and whose
    trailing edge [x + PIPE_WIDTH] is below the bird's [x] (first part);
    the score grows by the number of those pipes, that is by one for each
    flag that flips (second and third part).  A pipe counts once: running
    the pass again on its own result changes nothing (fourth part); a
    scored pipe stays scored when it is moved and is skipped by every
    later pass (fifth part); the pass a frame of a running game makes is
    this one, over the moved, pruned and possibly extended pipes (sixth
    part); and so, in every game from the mount on, the score together
    with the pipes still unscored never exceeds the number of pipes
    spawned, one per hundred frames (last part). *)
Theorem scorer_counts_each_pipe_once
    (screenWidth screenHeight birdX : Q) (ps : list Pipe.t) (s : Game) :
  let ps' := fst (forEachScore birdX ps s) in
  let s' := snd (forEachScore birdX ps s) in
  Forall2 (fun pipe pipe' =>
             Pipe.x pipe' = Pipe.x pipe /\
             Pipe.topHeight pipe' = Pipe.topHeight pipe /\
             Pipe.bottomY pipe' = Pipe.bottomY pipe /\
             Pipe.scored pipe' =
               Pipe.scored pipe || Qltb (Pipe.x pipe + PIPE_WIDTH) birdX)
          ps ps' /\
  score s' =
    (score s
     + Z.of_nat (length (filter
         (fun pipe => negb (Pipe.scored pipe)
                      && Qltb (Pipe.x pipe + PIPE_WIDTH) birdX) ps)))%Z /\
  (score s' - score s =
     Z.of_nat (length (unscored ps)) - Z.of_nat (length (unscored ps')))%Z /\
  forEachScore birdX ps' s' = (ps', s') /\
  (forall pipe : Pipe.t,
     Pipe.scored pipe = true ->
     Pipe.scored (movePipe pipe) = true /\ scorePipe birdX pipe = pipe) /\
  (forall (r : Q) (g : Game),
     gameState g = playing ->
     let stream :=
       streamAt screenWidth screenHeight r (frameCount g + 1) (pipes g) in
     let pass := forEachScore (Bird.x (bird g)) stream g in
     pipes (step screenWidth screenHeight (Tick r) g) = fst pass /\
     score (step screenWidth screenHeight (Tick r) g) = score (snd pass)) /\
  (forall es : list Event,
     let g := run screenWidth screenHeight es (FlappyBird screenHeight) in
     (score g + Z.of_nat (length (unscored (pipes g)))
      <= frameCount g / 100)%Z).
Proof.
  cbn zeta. rewrite forEachScore_run. cbn [fst snd score].
  split; [|split; [|split; [|split; [|split; [|split]]]]].
  - induction ps as [|pipe rest IH]; cbn [map]; constructor; [|exact IH].
    rewrite scorePipe_scored. unfold scorePipe.
    destruct (justPassed birdX pipe); repeat split; reflexivity.
  - rewrite countPassed_filter. reflexivity.
  - rewrite (unscored_scorePipe birdX ps). lia.
  - rewrite forEachScore_run. cbn [gameState score highScore bird pipes frameCount].
    rewrite countPassed_scored, Z.add_0_r. f_equal.
    rewrite map_map. apply map_ext. intros pipe. apply scorePipe_idempotent.
  - intros pipe Hscored. split; [exact Hscored |].
    unfold scorePipe. rewrite justPassed_scored by exact Hscored. reflexivity.
  - intros r g Hplay. unfold step. rewrite gameLoop_playing by exact Hplay.
    rewrite forEachScore_run. cbn. split; reflexivity.
  - intros es.
    apply (accounted_run screenWidth screenHeight es (FlappyBird screenHeight)).
    split; cbn; lia.
Qed.

Lemma scorer_counts_each_pipe_once_witness :
  let passed :=
    {| Pipe.x := 37; Pipe.topHeight := 250; Pipe.bottomY := 450;
       Pipe.scored := true |} in
  Pipe.scored passed = true /\
  Pipe.scored (movePipe passed) = true /\
  scorePipe 100 passed = passed.
Proof.
  split; [reflexivity |].
  exact (proj1 (proj2 (proj2 (proj2 (proj2
           (scorer_counts_each_pipe_once 400 800 100 [] justTapped)))))
           {| Pipe.x := 37; Pipe.topHeight := 250; Pipe.bottomY := 450;
              Pipe.scored := true |} eq_refl).
Defined.

(** A game on the sample screen, tapped every 31 frames: the first pipe
    spawns at frame 100 and its trailing edge passes the bird at frame
    221.  It earns its point then, and no more while it stays behind the
    bird (it is still in the list at frame 248). *)
Example first_pipe_scores_once :
  let game n := run 400 800 (firstn n (taps 8 31 0.5)) (FlappyBird 800) in
  (* 228 events are 8 taps and 220 frames *)
  digest (game 228%nat) = (220%Z, 0%Z, [false; false]) /\
  digest (game 229%nat) = (221%Z, 1%Z, [true; false]) /\
  digest (game 256%nat) = (248%Z, 1%Z, [true; false]).
Proof.
  cbv beta zeta.
  pose proof (reaches 400 800 (firstn 228 (taps 8 31 0.5)) _ eq_refl) as H228.
  pose proof (reaches 400 800 (firstn 229 (taps 8 31 0.5)) _ eq_refl) as H229.
  pose proof (reaches 400 800 (firstn 256 (taps 8 31 0.5)) _ eq_refl) as H256.
  apply digest_same in H228, H229, H256. rewrite H228, H229, H256.
  split; [|split]; vm_compute; reflexivity.
Qed.

(** * C5 and C10: the activate event *)

Section Activate.

Variables screenWidth screenHeight : Q.

Local Abbreviation step := (step screenWidth screenHeight).

(** C10.  A tap in the waiting or in the playing phase changes the bird's
    vertical velocity, which becomes [JUMP_FORCE], and the phase, which
    becomes (or stays) [playing]; the bird's [x] and [y], the pipes, the
    score, the high score and the frame counter are what they were. *)
Theorem activate_frame (s : Game) :
  gameState s = waiting \/ gameState s = playing ->
  let s' := step Activate s in
  Bird.velocityY (bird s') = JUMP_FORCE /\
  gameState s' = playing /\
  Bird.x (bird s') = Bird.x (bird s) /\
  Bird.y (bird s') = Bird.y (bird s) /\
  pipes s' = pipes s /\
  score s' = score s /\
  highScore s' = highScore s /\
  frameCount s' = frameCount s.
Proof.
  intros [Hphase | Hphase]; cbn zeta; unfold step, jump; rewrite Hphase;
    cbn; rewrite ?Hphase; repeat split; reflexivity.
Qed.

(** C5 (as amended).  A tap sets the bird's vertical velocity to
    [JUMP_FORCE] in the waiting phase, where the game also starts, and in
    the playing phase, where the phase stays.  In the game-over phase a tap
    is [resetGame]: the state is that of a fresh mount except for
    [highScore], which is kept, so the phase is [waiting] and the velocity
    is [0], not [JUMP_FORCE]. *)
Theorem activate_by_phase (s : Game) :
  let s' := step Activate s in
  (gameState s = waiting ->
   Bird.velocityY (bird s') = JUMP_FORCE /\ gameState s' = playing) /\
  (gameState s = playing ->
   Bird.velocityY (bird s') = JUMP_FORCE /\ gameState s' = playing) /\
  (gameState s = gameOver ->
   s' = mkGame waiting 0 (highScore s) (initialBird screenHeight) [] 0 /\
   s' = exec (setHighScore (highScore s)) (FlappyBird screenHeight) /\
   Bird.velocityY (bird s') = 0 /\ gameState s' = waiting).
Proof.
  cbn zeta. unfold step, jump.
  split; [|split]; intros Hphase; rewrite Hphase; cbn; rewrite ?Hphase;
    repeat split; reflexivity.
Qed.

End Activate.

Lemma activate_frame_witness :
  (gameState (FlappyBird 800) = waiting \/
   gameState (FlappyBird 800) = playing) /\
  Bird.velocityY (bird (step 400 800 Activate (FlappyBird 800))) = JUMP_FORCE /\
  gameState (step 400 800 Activate (FlappyBird 800)) = playing.
Proof.
  assert (Hphase : gameState (FlappyBird 800) = waiting \/
                   gameState (FlappyBird 800) = playing)
    by (left; reflexivity).
  split; [exact Hphase |].
  destruct (activate_frame 400 800 (FlappyBird 800) Hphase)
    as (Hv & Hstate & _).
  split; [exact Hv | exact Hstate].
Defined.

Lemma activate_by_phase_witness :
  gameState landed = gameOver /\
  step 400 800 Activate landed =
    mkGame waiting 0 (highScore landed) (initialBird 800) [] 0.
Proof.
  assert (Hphase : gameState landed = gameOver) by reflexivity.
  split; [exact Hphase |].
  exact (proj1 (proj2 (proj2 (activate_by_phase 400 800 landed)) Hphase)).
Defined.

(** C5 as the specification words it fails in the game-over phase: a tap
    on [landed] leaves the bird with velocity [0]. *)
Lemma activate_in_gameOver_gives_no_impulse :
  let s' := step 400 800 Activate landed in
  gameState landed = gameOver /\
  Bird.velocityY (bird s') = 0 /\
  ~ Bird.velocityY (bird s') == JUMP_FORCE.
Proof.
  cbn zeta. repeat split. vm_compute. discriminate.
Qed.

(** * C9: the high score *)

Section HighScore.

Variables screenWidth screenHeight : Q.

Local Abbreviation checkCollision := (checkCollision screenHeight).
Local Abbreviation step := (step screenWidth screenHeight).
Local Abbreviation run := (run screenWidth screenHeight).
Local Abbreviation resetGame := (resetGame screenHeight).

Lemma highScore_step (e : Event) (s : Game) :
  (highScore s <= highScore (step e s))%Z.
Proof.
  destruct e as [r| |]; unfold step.
  - destruct (gameState s) eqn:Hstate;
      try (rewrite gameLoop_idle by congruence; lia).
    rewrite gameLoop_playing by exact Hstate. cbn zeta. cbn [highScore].
    destruct (checkCollision (fall (bird s)) (pipes s));
      cbn [andb]; [|lia].
    destruct (score s >? highScore s)%Z eqn:Hbest; lia.
  - unfold jump. destruct (gameState s); cbn; lia.
  - destruct (gameState s); cbn; lia.
Qed.

Lemma highScore_run (es : list Event) (s : Game) :
  (highScore s <= highScore (run es s))%Z.
Proof.
  revert s. unfold run.
  induction es as [|e es IH]; intros s; cbn [fold_left]; [lia|].
  pose proof (highScore_step e s). pose proof (IH (step e s)). lia.
Qed.

(** [highScore] never decreases: not in one event (frame, tap or
    play-again press, in any phase), and so not over any sequence of
    events.  It is the only state that survives [resetGame]: the state
    after a reset is the freshly mounted one with the old [highScore]. *)
Theorem highScore_never_decreases :
  (forall (e : Event) (s : Game), (highScore s <= highScore (step e s))%Z) /\
  (forall (es : list Event) (s : Game),
     (highScore s <= highScore (run es s))%Z) /\
  (forall s : Game,
     exec resetGame s =
       mkGame waiting 0 (highScore s) (initialBird screenHeight) [] 0 /\
     exec resetGame s =
       exec (setHighScore (highScore s)) (FlappyBird screenHeight)).
Proof.
  split; [exact highScore_step |].
  split; [exact highScore_run |].
  intros s; split; reflexivity.
Qed.

End HighScore.

(** C9 (a defect of the code).  On the transition into game-over the
    high score is to become the score if the score is greater.
    [gameLoop] compares and stores the [score] its closure holds, the
    score the frame started with, while the [setPipes] updater of the
    same frame still runs the scoring pass: a pipe passed on the very
    frame that ends the game adds its point to [score] and not to
    [highScore].

    On a screen 390 wide and 844 high, a first game tapped every 31
    frames reaches [lastPointAhead] at frame 216.  Frame 217 takes the
    bird to [y = 422], and [422 + 30 > 444.25]: it hits the lower half of
    the first pipe, which at [x = 42] is still over the bird's span.  The
    same frame moves that pipe to [x = 39], and [39 + 60 < 100]: it is
    passed.  The game ends with [score = 1] and [highScore = 0], though
    [1 > 0].  The game-over overlay shows
    [Math.max(score, highScore) = 1] as the high score; after the next
    tap the stored high score is still [0] and the waiting overlay shows
    none. *)
Lemma final_frame_point_missing_from_highScore :
  sameGame
    (run 390 844 (taps 6 31 0.4375 ++ Activate :: frames 30 0.4375)
       (FlappyBird 844))
    lastPointAhead /\
  gameState lastPointAhead = playing /\
  checkCollision 844 (fall (bird lastPointAhead)) (pipes lastPointAhead)
    = true /\
  step 390 844 (Tick 0.4375) lastPointAhead = lastPointLost /\
  sameGame (run 390 844 (taps 7 31 0.4375) (FlappyBird 844)) lastPointLost /\
  gameState lastPointLost = gameOver /\
  score lastPointLost = 1%Z /\
  highScore lastPointLost = 0%Z /\
  (score lastPointLost > highScore lastPointLost)%Z /\
  shownHighScore lastPointLost = 1%Z /\
  highScore (step 390 844 Activate lastPointLost) = 0%Z /\
  waitingHighScoreLine (step 390 844 Activate lastPointLost) = None.
Proof.
  split; [apply reaches; vm_compute; reflexivity |].
  split; [reflexivity |].
  split; [vm_compute; reflexivity |].
  split; [vm_compute; reflexivity |].
  split; [apply reaches; vm_compute; reflexivity |].
  split; [reflexivity |]. split; [reflexivity |]. split; [reflexivity |].
  split; [reflexivity |]. split; [reflexivity |].
  split; reflexivity.
Qed.

(** * C6 and C8: generating pipes *)

Section Generate.

Variables screenWidth screenHeight : Q.

Local Abbreviation generatePipe := (generatePipe screenWidth screenHeight).
Local Abbreviation maxHeight := (maxHeight screenHeight).
Local Abbreviation step := (step screenWidth screenHeight).

(** The range of [topHeight] is empty or a single point exactly on
    screens no higher than [PIPE_GAP] plus the margins. *)
Lemma maxHeight_le_minHeight :
  maxHeight <= minHeight <->
  screenHeight <= PIPE_GAP + minHeight + 100 + minHeight.
Proof. unfold maxHeight, minHeight, PIPE_GAP. split; intros; lra. Qed.

Lemma generatePipe_in_range (r : Q) :
  0 <= r -> r < 1 -> minHeight <= maxHeight ->
  minHeight <= Pipe.topHeight (generatePipe r) /\
  Pipe.topHeight (generatePipe r) <= maxHeight.
Proof.
  intros Hr0 Hr1 Hrange. unfold generatePipe. cbn [Pipe.topHeight].
  split; nra.
Qed.

(** C6 (as amended).  No screen is rejected.  Whatever the height, the
    component mounts in its ordinary waiting state and [generatePipe]
    returns a pipe.  On a screen so low that [maxHeight <= minHeight], the
    draw is [topHeight = minHeight - r * (minHeight - maxHeight)]: it lies
    between [maxHeight] and [minHeight], the bounds in reverse, and for
    [r > 0] on a screen with [maxHeight < minHeight] it is below the
    lower bound [minHeight]. *)
Theorem low_screen_is_not_rejected (r : Q) :
  0 <= r -> r < 1 ->
  maxHeight <= minHeight ->
  FlappyBird screenHeight =
    mkGame waiting 0 0 (initialBird screenHeight) [] 0 /\
  Pipe.topHeight (generatePipe r) == minHeight - r * (minHeight - maxHeight) /\
  maxHeight <= Pipe.topHeight (generatePipe r) /\
  Pipe.topHeight (generatePipe r) <= minHeight /\
  (0 < r -> maxHeight < minHeight ->
   Pipe.topHeight (generatePipe r) < minHeight) /\
  Pipe.bottomY (generatePipe r) = Pipe.topHeight (generatePipe r) + PIPE_GAP.
Proof.
  intros Hr0 Hr1 Hlow. unfold generatePipe.
  cbn [Pipe.topHeight Pipe.bottomY].
  split; [reflexivity |]. split; [ring |].
  split; [nra |]. split; [nra |]. split; [intros; nra | reflexivity].
Qed.

End Generate.

Lemma low_screen_is_not_rejected_witness :
  0 <= 0.9 /\ 0.9 < 1 /\ maxHeight 300 <= minHeight /\
  Pipe.topHeight (generatePipe 400 300 0.9) < minHeight.
Proof.
  assert (Hr0 : 0 <= 0.9) by (vm_compute; discriminate).
  assert (Hr1 : 0.9 < 1) by reflexivity.
  assert (Hlow : maxHeight 300 <= minHeight) by (vm_compute; discriminate).
  split; [exact Hr0 | split; [exact Hr1 | split; [exact Hlow |]]].
  refine (proj1 (proj2 (proj2 (proj2 (proj2
            (low_screen_is_not_rejected 400 300 0.9 Hr0 Hr1 Hlow))))) _ _);
    reflexivity.
Defined.

(** C6 as the specification words it fails on a screen 400 wide and 300
    high, where [maxHeight = -50 < 50 = minHeight]: the component mounts,
    the game runs, and the pipe spawned at frame 100 with
    [Math.random() = 0.9] has [topHeight = -40], above the top of the
    screen. *)
Lemma low_screen_runs_with_reversed_range :
  let g := run 400 300 (taps 3 31 0.9 ++ Activate :: frames 7 0.9)
             (FlappyBird 300) in
  300 < PIPE_GAP + minHeight + 100 + minHeight /\
  maxHeight 300 < minHeight /\
  FlappyBird 300 = mkGame waiting 0 0 (initialBird 300) [] 0 /\
  sameGame g lowScreenAtFrame100 /\
  gameState lowScreenAtFrame100 = playing /\
  map Pipe.topHeight (pipes lowScreenAtFrame100) = [-40] /\
  Pipe.topHeight (generatePipe 400 300 0.9) == -40 /\
  -40 < minHeight /\ -40 < 0.
Proof.
  cbn zeta.
  split; [reflexivity |]. split; [reflexivity |]. split; [reflexivity |].
  split; [apply reaches; vm_compute; reflexivity |].
  split; [reflexivity |]. split; [reflexivity |].
  split; [vm_compute; reflexivity |]. split; reflexivity.
Qed.

Lemma scorePipe_fields (birdX : Q) (pipe : Pipe.t) :
  Pipe.x (scorePipe birdX pipe) = Pipe.x pipe /\
  Pipe.topHeight (scorePipe birdX pipe) = Pipe.topHeight pipe /\
  Pipe.bottomY (scorePipe birdX pipe) = Pipe.bottomY pipe.
Proof.
  unfold scorePipe. destruct (justPassed birdX pipe); repeat split.
Qed.

Section Spawn.

Variables screenWidth screenHeight : Q.

Local Abbreviation generatePipe := (generatePipe screenWidth screenHeight).
Local Abbreviation maxHeight := (maxHeight screenHeight).
Local Abbreviation step := (step screenWidth screenHeight).

(** C8.  A frame of a running game increments the frame counter and
    appends exactly one pipe if the incremented counter is a multiple of
    100, none otherwise; the pipes before it are the old ones, moved,
    pruned and scored.  (This holds whether the frame collides or not.)
    The appended pipe is the one [generatePipe] returns, at
    [x = screenWidth], with [scored = false] and
    [bottomY = topHeight + PIPE_GAP]; [topHeight] lies between
    [minHeight] and [maxHeight] when [Math.random()] answers in [[0, 1)]
    and the screen is high enough for [minHeight <= maxHeight].  The
    scoring pass of the same frame also visits the new pipe; it leaves it
    unscored unless the screen is so narrow that
    [screenWidth + PIPE_WIDTH < bird.x]. *)
Theorem spawn_cadence (r : Q) (s : Game) :
  gameState s = playing ->
  0 <= r -> r < 1 ->
  minHeight <= maxHeight ->
  let s' := step (Tick r) s in
  let kept := map (scorePipe (Bird.x (bird s))) (advancePipes (pipes s)) in
  frameCount s' = (frameCount s + 1)%Z /\
  (Z.rem (frameCount s') 100 = 0%Z ->
   exists new : Pipe.t,
     pipes s' = kept ++ [new] /\
     length (pipes s') = S (length (advancePipes (pipes s))) /\
     new = scorePipe (Bird.x (bird s)) (generatePipe r) /\
     Pipe.scored (generatePipe r) = false /\
     (Bird.x (bird s) <= screenWidth + PIPE_WIDTH ->
      Pipe.scored new = false) /\
     Pipe.x new = screenWidth /\
     Pipe.bottomY new = Pipe.topHeight new + PIPE_GAP /\
     minHeight <= Pipe.topHeight new /\
     Pipe.topHeight new <= maxHeight) /\
  (Z.rem (frameCount s') 100 <> 0%Z -> pipes s' = kept).
Proof.
  intros Hplay Hr0 Hr1 Hrange. cbn zeta. unfold step.
  rewrite gameLoop_playing by exact Hplay. cbn zeta.
  cbn [frameCount pipes]. unfold streamAt.
  split; [reflexivity |].
  destruct (Z.rem (frameCount s + 1) 100 =? 0)%Z eqn:Hspawn.
  - split; [intros _ | apply Z.eqb_eq in Hspawn; congruence].
    exists (scorePipe (Bird.x (bird s)) (generatePipe r)).
    destruct (scorePipe_fields (Bird.x (bird s)) (generatePipe r))
      as (Hx & Htop & Hbottom).
    rewrite map_app, Hx, Htop, Hbottom. cbn [map].
    split; [reflexivity |].
    split; [rewrite length_app, length_map; cbn [length]; lia |].
    split; [reflexivity |]. split; [reflexivity |].
    split.
    { intros Hwide. rewrite scorePipe_scored.
      unfold generatePipe. cbn [Pipe.scored Pipe.x orb].
      reflect_Q. exact Hwide. }
    split; [reflexivity |]. split; [reflexivity |].
    apply generatePipe_in_range; assumption.
  - apply Z.eqb_neq in Hspawn. split; [congruence | reflexivity].
Qed.

End Spawn.

Lemma spawn_cadence_witness :
  gameState beforeFirstSpawn = playing /\
  0 <= 0.5 /\ 0.5 < 1 /\ minHeight <= maxHeight 800 /\
  Z.rem (frameCount (step 400 800 (Tick 0.5) beforeFirstSpawn)) 100 = 0%Z /\
  exists new : Pipe.t,
    pipes (step 400 800 (Tick 0.5) beforeFirstSpawn) = [new] /\
    Pipe.x new = 400 /\ Pipe.scored new = false.
Proof.
  assert (Hplay : gameState beforeFirstSpawn = playing) by reflexivity.
  assert (Hr0 : 0 <= 0.5) by (vm_compute; discriminate).
  assert (Hr1 : 0.5 < 1) by reflexivity.
  assert (Hrange : minHeight <= maxHeight 800) by (vm_compute; discriminate).
  assert (Hframe : Z.rem (frameCount (step 400 800 (Tick 0.5)
                                        beforeFirstSpawn)) 100 = 0%Z)
    by reflexivity.
  split; [exact Hplay | split; [exact Hr0 | split; [exact Hr1 |]]].
  split; [exact Hrange | split; [exact Hframe |]].
  destruct (spawn_cadence 400 800 0.5 beforeFirstSpawn Hplay Hr0 Hr1 Hrange)
    as (_ & Hspawn & _).
  destruct (Hspawn Hframe)
    as (new & Hpipes & _ & _ & _ & Hscored & Hx & _).
  exists new. split; [exact Hpipes | split; [exact Hx |]].
  apply Hscored. vm_compute. discriminate.
Defined.

Example first_pipe_spawns_at_frame_100 :
  reduced (step 400 800 (Tick 0.5) beforeFirstSpawn) =
    {| gameState := playing; score := 0; highScore := 0;
       bird := {| Bird.x := 100; Bird.y := 1664 # 5;
                  Bird.velocityY := -32 # 5 |};
       pipes := [ {| Pipe.x := 400; Pipe.topHeight := 250;
                     Pipe.bottomY := 450; Pipe.scored := false |} ];
       frameCount := 100 |}.
Proof. vm_compute. reflexivity. Qed.

Example beforeFirstSpawn_reached :
  sameGame (run 400 800 (taps 3 31 0.5 ++ Activate :: frames 6 0.5)
              (FlappyBird 800))
    beforeFirstSpawn.
Proof. apply reaches. vm_compute. reflexivity. Qed.

(** * C7: pruning the pipes *)

Lemma advancePipes_filter_first (ps : list Pipe.t) :
  advancePipes ps =
    map movePipe
      (filter (fun pipe => Qgtb (Pipe.x pipe - GAME_SPEED) (- PIPE_WIDTH)) ps).
Proof.
  unfold advancePipes.
  induction ps as [|pipe rest IH]; cbn [map filter]; [reflexivity|].
  unfold onScreen at 1. cbn [movePipe Pipe.with_x Pipe.x].
  destruct (Qgtb (Pipe.x pipe - GAME_SPEED) (- PIPE_WIDTH));
    cbn [map]; rewrite IH; reflexivity.
Qed.

Lemma advancePipes_onScreen (ps : list Pipe.t) :
  Forall (fun pipe => - PIPE_WIDTH < Pipe.x pipe) (advancePipes ps).
Proof.
  unfold advancePipes. apply Forall_forall. intros pipe Hin.
  apply filter_In in Hin. destruct Hin as [_ Hon].
  unfold onScreen in Hon. reflect_Q. exact Hon.
Qed.

Lemma scorePipe_onScreen (birdX : Q) (ps : list Pipe.t) :
  Forall (fun pipe => - PIPE_WIDTH < Pipe.x pipe) ps ->
  Forall (fun pipe => - PIPE_WIDTH < Pipe.x pipe) (map (scorePipe birdX) ps).
Proof.
  intros Hps. apply Forall_map. revert Hps. apply Forall_impl.
  intros pipe Hon. destruct (scorePipe_fields birdX pipe) as (-> & _).
  exact Hon.
Qed.

Section Prune.

Variables screenWidth screenHeight : Q.

Local Abbreviation step := (step screenWidth screenHeight).
Local Abbreviation run := (run screenWidth screenHeight).

Hypothesis screen_right_of_exit : - PIPE_WIDTH < screenWidth.

Lemma tick_onScreen (r : Q) (s : Game) :
  gameState s = playing ->
  Forall (fun pipe => - PIPE_WIDTH < Pipe.x pipe) (pipes (step (Tick r) s)).
Proof.
  intros Hplay. unfold step. rewrite gameLoop_playing by exact Hplay.
  cbn zeta. cbn [pipes]. apply scorePipe_onScreen. unfold streamAt.
  destruct (Z.rem (frameCount s + 1) 100 =? 0)%Z.
  - apply Forall_app. split; [apply advancePipes_onScreen |].
    constructor; [exact screen_right_of_exit | constructor].
  - apply advancePipes_onScreen.
Qed.

Lemma step_onScreen (e : Event) (s : Game) :
  Forall (fun pipe => - PIPE_WIDTH < Pipe.x pipe) (pipes s) ->
  Forall (fun pipe => - PIPE_WIDTH < Pipe.x pipe) (pipes (step e s)).
Proof.
  intros Hs. destruct e as [r| |].
  - destruct (gameState s) eqn:Hstate;
      try (unfold step; rewrite gameLoop_idle by congruence; exact Hs).
    apply tick_onScreen. exact Hstate.
  - unfold step, jump. destruct (gameState s); cbn; first [exact Hs | constructor].
  - unfold step. destruct (gameState s); cbn; first [exact Hs | constructor].
Qed.

Lemma run_onScreen (es : list Event) (s : Game) :
  Forall (fun pipe => - PIPE_WIDTH < Pipe.x pipe) (pipes s) ->
  Forall (fun pipe => - PIPE_WIDTH < Pipe.x pipe) (pipes (run es s)).
Proof.
  revert s. unfold run.
  induction es as [|e es IH]; intros s Hs; cbn [fold_left]; [exact Hs|].
  apply IH, step_onScreen, Hs.
Qed.

(** C7 (as amended).  Advancing the pipes keeps, in their order and each
    moved left by [GAME_SPEED], exactly the pipes whose new position is
    greater than [- PIPE_WIDTH]: a pipe is removed exactly when its
    position after the move is less than _or equal to_ [- PIPE_WIDTH].
    The pipes after a frame of a running game are these, followed by the
    new pipe on a spawning frame, with the marks of the scoring pass.
    Consequently, on a screen whose right edge is right of
    [- PIPE_WIDTH], every pipe of the list after a frame of a running
    game, and every pipe of every state of a game from the mount on,
    has [x > - PIPE_WIDTH]; none has [x <= - PIPE_WIDTH], let alone
    [x < - PIPE_WIDTH]. *)
Theorem advance_removes_pipes_at_or_left_of_exit :
  (forall ps : list Pipe.t,
     advancePipes ps =
       map movePipe
         (filter (fun pipe => Qgtb (Pipe.x pipe - GAME_SPEED) (- PIPE_WIDTH))
            ps)) /\
  (forall (ps : list Pipe.t) (pipe : Pipe.t),
     In pipe ps ->
     (In (movePipe pipe) (advancePipes ps) <->
        - PIPE_WIDTH < Pipe.x pipe - GAME_SPEED) /\
     (~ In (movePipe pipe) (advancePipes ps) <->
        Pipe.x pipe - GAME_SPEED <= - PIPE_WIDTH)) /\
  (forall (r : Q) (s : Game),
     gameState s = playing ->
     pipes (step (Tick r) s) =
       map (scorePipe (Bird.x (bird s)))
         (advancePipes (pipes s)
          ++ (if (Z.rem (frameCount s + 1) 100 =? 0)%Z
              then [generatePipe screenWidth screenHeight r] else [])) /\
     Forall (fun pipe => - PIPE_WIDTH < Pipe.x pipe /\
                         ~ Pipe.x pipe <= - PIPE_WIDTH)
       (pipes (step (Tick r) s))) /\
  (forall es : list Event,
     Forall (fun pipe => - PIPE_WIDTH < Pipe.x pipe /\
                         ~ Pipe.x pipe <= - PIPE_WIDTH)
       (pipes (run es (FlappyBird screenHeight)))).
Proof.
  assert (Hstrict : forall ps,
            Forall (fun pipe => - PIPE_WIDTH < Pipe.x pipe) ps ->
            Forall (fun pipe => - PIPE_WIDTH < Pipe.x pipe /\
                                ~ Pipe.x pipe <= - PIPE_WIDTH) ps).
  { intros ps. apply Forall_impl. intros pipe Hon.
    split; [exact Hon | apply Qlt_not_le; exact Hon]. }
  assert (Hin : forall ps pipe, In pipe ps ->
            (In (movePipe pipe) (advancePipes ps) <->
               - PIPE_WIDTH < Pipe.x pipe - GAME_SPEED)).
  { intros ps pipe Hpipe. unfold advancePipes. rewrite filter_In. split.
    - intros [_ Hon]. unfold onScreen in Hon. reflect_Q. exact Hon.
    - intros Hon. split; [apply in_map; exact Hpipe |].
      unfold onScreen. reflect_Q. exact Hon. }
  split; [exact advancePipes_filter_first |].
  split.
  { intros ps pipe Hpipe. split; [apply Hin; exact Hpipe |].
    rewrite (Hin ps pipe Hpipe). split.
    - apply Qnot_lt_le.
    - apply Qle_not_lt. }
  split.
  - intros r s Hplay. split; [| apply Hstrict, tick_onScreen, Hplay].
    unfold step. rewrite gameLoop_playing by exact Hplay.
    cbn zeta. cbn [pipes]. unfold streamAt.
    destruct (Z.rem (frameCount s + 1) 100 =? 0)%Z;
      [| rewrite app_nil_r]; reflexivity.
  - intros es. apply Hstrict, run_onScreen. constructor.
Qed.

End Prune.

Lemma advance_removes_pipes_at_or_left_of_exit_witness :
  - PIPE_WIDTH < 390 /\
  gameState pipeAboutToLeave = playing /\
  Forall (fun pipe => - PIPE_WIDTH < Pipe.x pipe /\
                      ~ Pipe.x pipe <= - PIPE_WIDTH)
    (pipes (step 390 844 (Tick 0.5) pipeAboutToLeave)).
Proof.
  assert (Hscreen : - PIPE_WIDTH < 390) by reflexivity.
  assert (Hplay : gameState pipeAboutToLeave = playing) by reflexivity.
  split; [exact Hscreen | split; [exact Hplay |]].
  exact (proj2 (proj1 (proj2 (proj2
           (advance_removes_pipes_at_or_left_of_exit 390 844 Hscreen)))
           0.5 pipeAboutToLeave Hplay)).
Defined.

(** C7 as the specification words it fails at [pipeAboutToLeave]: the
    frame does not collide and moves the first pipe from [x = -57] to
    [x = -60 = - PIPE_WIDTH]; the pipe is removed, although neither [-57]
    nor [-60] is less than [- PIPE_WIDTH]. *)
Lemma pipe_at_exit_is_removed :
  let s := pipeAboutToLeave in
  let s' := step 390 844 (Tick 0.5) s in
  gameState s' = playing /\
  map Pipe.x (pipes s) = [-57; 243] /\
  map Pipe.x (pipes s') = [240] /\
  -57 - GAME_SPEED == - PIPE_WIDTH /\
  ~ -57 < - PIPE_WIDTH /\
  ~ -57 - GAME_SPEED < - PIPE_WIDTH.
Proof.
  cbn zeta. repeat split; try (vm_compute; reflexivity);
    vm_compute; discriminate.
Qed.

(** * Further properties of the component

    The theorems below are read off the source and are not among the
    numbered claims. *)

Section Runs.

Variables screenWidth screenHeight : Q.

Local Abbreviation step := (step screenWidth screenHeight).
Local Abbreviation run := (run screenWidth screenHeight).

(** What holds at the start and is kept by every event holds after every
    run; [ok] restricts the events. *)
Lemma run_invariant (P : Game -> Prop) (ok : Event -> Prop) :
  (forall e s, ok e -> P s -> P (step e s)) ->
  forall (es : list Event) (s : Game),
    Forall ok es -> P s -> P (run es s).
Proof.
  intros Hstep es. unfold run.
  induction es as [|e es IH]; intros s Hok Hs; cbn [fold_left]; [exact Hs|].
  inversion Hok as [|? ? He Hes]; subst.
  apply IH; [exact Hes | apply Hstep; assumption].
Qed.

Lemma Forall_any_event (es : list Event) : Forall (fun _ => True) es.
Proof. induction es; constructor; auto. Qed.

Lemma run_app (es fs : list Event) (s : Game) :
  run (es ++ fs) s = run fs (run es s).
Proof. unfold run. apply fold_left_app. Qed.

Lemma jump_not_gameOver (s : Game) :
  gameState s <> gameOver ->
  step Activate s =
    mkGame playing (score s) (highScore s)
      (Bird.with_velocityY JUMP_FORCE (bird s)) (pipes s) (frameCount s).
Proof.
  intros Hphase. unfold step, jump.
  destruct (gameState s) eqn:Hstate; [reflexivity | | congruence].
  cbn. rewrite Hstate. reflexivity.
Qed.

Lemma jump_gameOver (s : Game) :
  gameState s = gameOver ->
  step Activate s =
    mkGame waiting 0 (highScore s) (initialBird screenHeight) [] 0.
Proof. intros Hphase. unfold step, jump. rewrite Hphase. reflexivity. Qed.

Lemma tick_playing (r : Q) (s : Game) :
  gameState s = playing ->
  step (Tick r) s =
    let hit := checkCollision screenHeight (fall (bird s)) (pipes s) in
    let stream :=
      streamAt screenWidth screenHeight r (frameCount s + 1) (pipes s) in
    {| gameState := if hit then gameOver else playing;
       score := score s + countPassed (Bird.x (bird s)) stream;
       highScore := if hit && (score s >? highScore s)%Z
                    then score s else highScore s;
       bird := if hit then bird s else fall (bird s);
       pipes := map (scorePipe (Bird.x (bird s))) stream;
       frameCount := frameCount s + 1 |}.
Proof. apply gameLoop_playing. Qed.

Lemma tick_idle (r : Q) (s : Game) :
  gameState s <> playing -> step (Tick r) s = s.
Proof. apply gameLoop_idle. Qed.

Lemma playAgain_step (s : Game) :
  step PlayAgain s =
    match gameState s with
    | gameOver => mkGame waiting 0 (highScore s) (initialBird screenHeight) [] 0
    | _ => s
    end.
Proof. unfold step. destruct (gameState s); reflexivity. Qed.

(** ** The bird *)

Lemma birdOnTrack_step (e : Event) (s : Game) :
  birdOnTrack s -> birdOnTrack (step e s).
Proof.
  intros [Hx Hv]. unfold birdOnTrack. destruct e as [r| |].
  - destruct (gameState s) eqn:Hstate;
      try (rewrite tick_idle by congruence; split; assumption).
    rewrite tick_playing by exact Hstate. cbn zeta. cbn [bird].
    destruct (checkCollision screenHeight (fall (bird s)) (pipes s));
      [split; assumption |].
    cbn [fall Bird.x Bird.velocityY]. split; [exact Hx |].
    unfold GRAVITY. lra.
  - destruct (gameState s) eqn:Hstate;
      try (rewrite jump_not_gameOver by congruence; cbn;
           split; [exact Hx | apply Qle_refl]).
    rewrite jump_gameOver by exact Hstate. cbn. split; [reflexivity |].
    unfold JUMP_FORCE. lra.
  - rewrite playAgain_step. destruct (gameState s); try (split; assumption).
    cbn. split; [reflexivity |]. unfold JUMP_FORCE. lra.
Qed.

Lemma birdOnTrack_run (es : list Event) :
  birdOnTrack (run es (FlappyBird screenHeight)).
Proof.
  apply (run_invariant birdOnTrack (fun _ => True)).
  - intros e s _. apply birdOnTrack_step.
  - apply Forall_any_event.
  - split; [reflexivity |]. cbn. unfold JUMP_FORCE. lra.
Qed.

(** The bird never moves sideways and never rises faster than a fresh
    jump: in every state of every game from the mount on, [bird.x] is
    [100] and [bird.velocityY] is at least [JUMP_FORCE]. *)
Theorem bird_stays_on_track (es : list Event) :
  let g := run es (FlappyBird screenHeight) in
  Bird.x (bird g) = 100 /\ JUMP_FORCE <= Bird.velocityY (bird g).
Proof.
  cbn zeta. destruct (birdOnTrack_run es) as [Hx Hv].
  split; [exact Hx | exact Hv].
Qed.

Lemma birdInBounds_step (e : Event) (s : Game) :
  birdInBounds screenHeight (FlappyBird screenHeight) ->
  birdInBounds screenHeight s -> birdInBounds screenHeight (step e s).
Proof.
  intros Hinit Hs. unfold birdInBounds. destruct e as [r| |].
  - destruct (gameState s) eqn:Hstate;
      try (rewrite tick_idle by congruence; exact Hs).
    rewrite tick_playing by exact Hstate. cbn zeta. cbn [bird].
    destruct (checkCollision screenHeight (fall (bird s)) (pipes s)) eqn:Hhit;
      [exact Hs |].
    unfold checkCollision in Hhit.
    destruct (Qgtb (Bird.y (fall (bird s))) (screenHeight - 100 - BIRD_SIZE))
      eqn:Hground; [discriminate |].
    destruct (Qltb (Bird.y (fall (bird s))) 0) eqn:Hceiling; [discriminate |].
    reflect_Q. split; assumption.
  - destruct (gameState s) eqn:Hstate;
      try (rewrite jump_not_gameOver by congruence; exact Hs).
    rewrite jump_gameOver by exact Hstate. exact Hinit.
  - rewrite playAgain_step. destruct (gameState s); try exact Hs. exact Hinit.
Qed.

(** On a screen at least 260 high (so that the starting position
    [screenHeight / 2] is not below the ground line), the bird of every
    state of every game is between the ceiling and the ground line:
    [0 <= y <= screenHeight - 100 - BIRD_SIZE].  A position that collides
    is never committed. *)
Theorem bird_stays_in_bounds (es : list Event) :
  260 <= screenHeight ->
  let g := run es (FlappyBird screenHeight) in
  0 <= Bird.y (bird g) /\ Bird.y (bird g) <= screenHeight - 100 - BIRD_SIZE.
Proof.
  intros Hscreen.
  assert (Hinit : birdInBounds screenHeight (FlappyBird screenHeight)).
  { unfold birdInBounds, BIRD_SIZE. cbn. split.
    - apply Qle_shift_div_l; [reflexivity | lra].
    - apply Qle_shift_div_r; [reflexivity | lra]. }
  apply (run_invariant (birdInBounds screenHeight) (fun _ => True)).
  - intros e s _. apply birdInBounds_step. exact Hinit.
  - apply Forall_any_event.
  - exact Hinit.
Qed.

(** The bird is drawn tilted by [Math.min(velocityY * 3, 45)] degrees: in
    every state of every game the tilt is between [-36] (a fresh jump)
    and [45]. *)
Theorem bird_tilt_bounded (es : list Event) :
  let g := run es (FlappyBird screenHeight) in
  -36 <= birdRotation (bird g) /\ birdRotation (bird g) <= 45.
Proof.
  cbn zeta. destruct (birdOnTrack_run es) as [_ Hv].
  unfold birdRotation, JUMP_FORCE in *. split.
  - apply Q.min_glb; lra.
  - apply Q.le_min_r.
Qed.

End Runs.

Lemma bird_stays_in_bounds_witness :
  260 <= 800 /\
  0 <= Bird.y (bird (run 400 800 [Activate; Tick 0.5] (FlappyBird 800))).
Proof.
  assert (Hscreen : 260 <= 800) by (vm_compute; discriminate).
  split; [exact Hscreen |].
  exact (proj1 (bird_stays_in_bounds 400 800 [Activate; Tick 0.5] Hscreen)).
Defined.

(** ** The phases *)

Section Phases.

Variables screenWidth screenHeight : Q.

Local Abbreviation step := (step screenWidth screenHeight).
Local Abbreviation run := (run screenWidth screenHeight).
Local Abbreviation checkCollision := (checkCollision screenHeight).

(** The phase changes only along waiting -> playing -> gameOver ->
    waiting, and each change has one cause: a game starts only by a tap,
    ends only by a frame whose new bird collides, and goes back to waiting
    only by a tap or the play-again button.  In particular a frame never
    starts or restarts a game, and a tap never ends one. *)
Theorem phase_changes (e : Event) (s : Game) :
  match gameState s, gameState (step e s) with
  | waiting, waiting => e <> Activate
  | waiting, playing => e = Activate
  | playing, playing =>
      forall r, e = Tick r ->
                checkCollision (fall (bird s)) (pipes s) = false
  | playing, gameOver =>
      exists r, e = Tick r /\
                checkCollision (fall (bird s)) (pipes s) = true
  | gameOver, gameOver => isTick e
  | gameOver, waiting => e = Activate \/ e = PlayAgain
  | waiting, gameOver | playing, waiting | gameOver, playing => False
  end.
Proof.
  destruct e as [r| |].
  - destruct (gameState s) eqn:Hstate;
      try (rewrite tick_idle by congruence; rewrite Hstate;
           first [discriminate | exact I]).
    rewrite tick_playing by exact Hstate. cbn zeta. cbn [gameState].
    destruct (checkCollision (fall (bird s)) (pipes s)).
    + exists r. split; reflexivity.
    + intros ? _. reflexivity.
  - destruct (gameState s) eqn:Hstate.
    + rewrite jump_not_gameOver by congruence. reflexivity.
    + rewrite jump_not_gameOver by congruence. cbn. discriminate.
    + rewrite jump_gameOver by exact Hstate. cbn. left. reflexivity.
  - rewrite playAgain_step.
    destruct (gameState s) eqn:Hstate; cbn; rewrite ?Hstate;
      first [discriminate | right; reflexivity].
Qed.


(** A tap sets the velocity, it does not add to it: outside the game-over
    phase a second tap right after a tap changes nothing. *)
Theorem double_tap_is_one_tap (s : Game) :
  gameState s <> gameOver ->
  step Activate (step Activate s) = step Activate s.
Proof.
  intros Hphase. rewrite (jump_not_gameOver _ _ s) by exact Hphase.
  rewrite jump_not_gameOver by (cbn; discriminate). reflexivity.
Qed.

(** After a game has ended, the play-again button and a tap do the same,
    and either of them followed by a tap starts a fresh game: the bird in
    the middle of the screen with the jump velocity, no pipes, score and
    frame counter at zero, and the high score kept. *)
Theorem restart_after_gameOver (s : Game) :
  gameState s = gameOver ->
  step PlayAgain s = step Activate s /\
  run [Activate; Activate] s = run [PlayAgain; Activate] s /\
  run [Activate; Activate] s =
    {| gameState := playing; score := 0; highScore := highScore s;
       bird := {| Bird.x := 100; Bird.y := screenHeight / 2;
                  Bird.velocityY := JUMP_FORCE |};
       pipes := []; frameCount := 0 |} /\
  run [Activate; Activate] s =
    exec (setHighScore (highScore s))
      (step Activate (FlappyBird screenHeight)).
Proof.
  intros Hphase. unfold run. cbn [fold_left].
  rewrite playAgain_step, Hphase, (jump_gameOver _ _ s) by exact Hphase.
  rewrite jump_not_gameOver by (cbn; discriminate).
  rewrite jump_not_gameOver by (cbn; discriminate).
  repeat split.
Qed.

Lemma waiting_is_fresh_step (e : Event) (s : Game) :
  (gameState s = waiting ->
   s = mkGame waiting 0 (highScore s) (initialBird screenHeight) [] 0) ->
  gameState (step e s) = waiting ->
  step e s =
    mkGame waiting 0 (highScore (step e s)) (initialBird screenHeight) [] 0.
Proof.
  intros Hs Hwait. destruct e as [r| |].
  - destruct (gameState s) eqn:Hstate.
    + rewrite tick_idle by congruence. apply Hs. reflexivity.
    + rewrite tick_playing in Hwait by exact Hstate. cbn zeta in Hwait.
      cbn [gameState] in Hwait.
      destruct (checkCollision (fall (bird s)) (pipes s)); discriminate.
    + rewrite tick_idle in Hwait by congruence. congruence.
  - destruct (gameState s) eqn:Hstate;
      try (rewrite jump_not_gameOver in Hwait by congruence;
           discriminate Hwait).
    rewrite jump_gameOver by exact Hstate. reflexivity.
  - rewrite playAgain_step in *.
    destruct (gameState s) eqn:Hstate; try congruence.
    + apply Hs. reflexivity.
    + reflexivity.
Qed.

(** Whenever a game from the mount on is in the waiting phase, it is the
    freshly mounted state except for the high score: score [0], the bird
    at rest in the middle of the screen, no pipes, frame counter [0]. *)
Theorem waiting_is_fresh (es : list Event) :
  let g := run es (FlappyBird screenHeight) in
  gameState g = waiting ->
  g = mkGame waiting 0 (highScore g) (initialBird screenHeight) [] 0.
Proof.
  apply (run_invariant screenWidth screenHeight
           (fun g => gameState g = waiting ->
                     g = mkGame waiting 0 (highScore g)
                           (initialBird screenHeight) [] 0)
           (fun _ => True)).
  - intros e s _. apply waiting_is_fresh_step.
  - apply Forall_any_event.
  - intros _. reflexivity.
Qed.

End Phases.


Lemma double_tap_is_one_tap_witness :
  gameState lastFrameAloft <> gameOver /\
  step 400 800 Activate (step 400 800 Activate lastFrameAloft) =
    step 400 800 Activate lastFrameAloft.
Proof.
  assert (Hphase : gameState lastFrameAloft <> gameOver) by discriminate.
  split; [exact Hphase |].
  exact (double_tap_is_one_tap 400 800 lastFrameAloft Hphase).
Defined.

Lemma restart_after_gameOver_witness :
  gameState landed = gameOver /\
  step 400 800 PlayAgain landed = step 400 800 Activate landed.
Proof.
  assert (Hphase : gameState landed = gameOver) by reflexivity.
  split; [exact Hphase |].
  exact (proj1 (restart_after_gameOver 400 800 landed Hphase)).
Defined.

Lemma sameGame_phase_and_best (g g' : Game) :
  sameGame g g' ->
  gameState g = gameState g' /\ highScore g = highScore g'.
Proof. intros (Hstate & _ & Hbest & _). split; assumption. Qed.

(** The first game on the sample screen ([lastFrameAloft], then the
    frame that ends it with score and high score 1), then the play-again
    button. *)
Lemma waiting_is_fresh_witness :
  gameState (run 400 800 (taps 8 31 0.5 ++ frames 15 0.5 ++ [PlayAgain])
               (FlappyBird 800)) = waiting /\
  run 400 800 (taps 8 31 0.5 ++ frames 15 0.5 ++ [PlayAgain])
    (FlappyBird 800) =
    mkGame waiting 0 1 (initialBird 800) [] 0.
Proof.
  destruct (sameGame_phase_and_best _ _
              (reaches 400 800
                 (taps 8 31 0.5 ++ frames 15 0.5 ++ [PlayAgain]) _ eq_refl))
    as [Hstate Hbest].
  assert (Hwait : gameState (run 400 800
                    (taps 8 31 0.5 ++ frames 15 0.5 ++ [PlayAgain])
                    (FlappyBird 800)) = waiting).
  { rewrite Hstate. vm_compute. reflexivity. }
  split; [exact Hwait |].
  etransitivity;
    [exact (waiting_is_fresh 400 800
              (taps 8 31 0.5 ++ frames 15 0.5 ++ [PlayAgain]) Hwait) |].
  rewrite Hbest. vm_compute. reflexivity.
Defined.

(** ** Collisions and pipes *)

Section MorePipes.

Variables screenWidth screenHeight : Q.

Local Abbreviation checkCollision := (checkCollision screenHeight).
Local Abbreviation generatePipe := (generatePipe screenWidth screenHeight).
Local Abbreviation maxHeight := (maxHeight screenHeight).
Local Abbreviation step := (step screenWidth screenHeight).
Local Abbreviation run := (run screenWidth screenHeight).

Lemma pipeLoop_existsb (b : Bird.t) (ps : list Pipe.t) :
  pipeLoop b ps = existsb (hitsPipe b) ps.
Proof.
  induction ps as [|pipe rest IH]; cbn [pipeLoop existsb]; [reflexivity|].
  rewrite IH. destruct (hitsPipe b pipe); reflexivity.
Qed.

Lemma checkCollision_app (b : Bird.t) (ps qs : list Pipe.t) :
  checkCollision b (ps ++ qs) = checkCollision b ps || checkCollision b qs.
Proof.
  unfold checkCollision.
  destruct (Qgtb (Bird.y b) (screenHeight - 100 - BIRD_SIZE));
    [reflexivity |].
  destruct (Qltb (Bird.y b) 0); [reflexivity |].
  rewrite !pipeLoop_existsb. apply existsb_app.
Qed.

(** The early [return true] of the loop over the pipes does not make the
    answer depend on their order: [checkCollision] gives the same answer
    on every rearrangement of the pipes, and on two lists put together
    it is the disjunction of the answers on each. *)
Theorem checkCollision_order_independent (b : Bird.t) (ps qs : list Pipe.t) :
  (Permutation ps qs -> checkCollision b ps = checkCollision b qs) /\
  checkCollision b (ps ++ qs) = checkCollision b ps || checkCollision b qs.
Proof.
  split; [| apply checkCollision_app].
  induction 1 as [| p ps qs _ IH | p q ps | ps qs rs _ IH1 _ IH2].
  - reflexivity.
  - change (p :: ps) with ([p] ++ ps). change (p :: qs) with ([p] ++ qs).
    rewrite !checkCollision_app, IH. reflexivity.
  - change (q :: p :: ps) with ([q] ++ [p] ++ ps).
    change (p :: q :: ps) with ([p] ++ [q] ++ ps).
    rewrite !checkCollision_app.
    destruct (checkCollision b [q]), (checkCollision b [p]); reflexivity.
  - congruence.
Qed.

(** Every pipe [generatePipe] makes can be flown through.  On a screen
    high enough for [minHeight <= maxHeight] and for a draw in [[0, 1)],
    the gap is [PIPE_GAP] high, starts at least [minHeight] below the
    ceiling and ends at least [minHeight] above the ground line, and a
    bird at any height from [topHeight] to
    [topHeight + PIPE_GAP - BIRD_SIZE] does not collide, wherever the
    pipe and the bird stand horizontally. *)
Theorem generated_pipe_is_passable (r : Q) (b : Bird.t) (pipeX : Q) :
  0 <= r -> r < 1 ->
  minHeight <= maxHeight ->
  let pipe := Pipe.with_x pipeX (generatePipe r) in
  minHeight <= Pipe.topHeight pipe /\
  Pipe.bottomY pipe + minHeight <= screenHeight - 100 /\
  (Pipe.topHeight pipe <= Bird.y b ->
   Bird.y b <= Pipe.topHeight pipe + PIPE_GAP - BIRD_SIZE ->
   checkCollision b [pipe] = false).
Proof.
  intros Hr0 Hr1 Hrange. cbn zeta.
  destruct (generatePipe_in_range screenWidth screenHeight r Hr0 Hr1 Hrange)
    as [Hlow Hhigh].
  unfold generatePipe in *.
  cbn [Pipe.with_x Pipe.topHeight Pipe.bottomY] in *.
  unfold maxHeight, minHeight, PIPE_GAP, BIRD_SIZE in *.
  set (drawn := r * (screenHeight - 200 - 50 - 100 - 50)) in *.
  clearbody drawn.
  split; [exact Hlow |]. split; [lra |].
  intros Htop Hbottom.
  match goal with
  | |- ?c = false => destruct c eqn:Hhit; [exfalso | reflexivity]
  end.
  unfold checkCollision, BIRD_SIZE in Hhit.
  destruct (Qgtb (Bird.y b) (screenHeight - 100 - 30)) eqn:Hground;
    [reflect_Q; lra |].
  destruct (Qltb (Bird.y b) 0) eqn:Hceiling; [reflect_Q; lra |].
  apply pipeLoop_iff in Hhit. destruct Hhit as (pipe & [<- | []] & Hpipe).
  apply hitsPipe_iff in Hpipe. destruct Hpipe as [_ Hout].
  cbn [Pipe.with_x Pipe.topHeight Pipe.bottomY] in Hout.
  unfold BIRD_SIZE in Hout. destruct Hout; lra.
Qed.

Lemma wellFormed_generatePipe (r : Q) :
  0 <= r -> r < 1 -> minHeight <= maxHeight ->
  wellFormedPipe screenHeight (generatePipe r).
Proof.
  intros Hr0 Hr1 Hrange. split; [reflexivity |].
  apply generatePipe_in_range; assumption.
Qed.

Lemma wellFormed_step (e : Event) (s : Game) :
  minHeight <= maxHeight ->
  validEvent e ->
  Forall (wellFormedPipe screenHeight) (pipes s) ->
  Forall (wellFormedPipe screenHeight) (pipes (step e s)).
Proof.
  intros Hrange He Hs. destruct e as [r| |].
  - destruct (gameState s) eqn:Hstate;
      try (rewrite tick_idle by congruence; exact Hs).
    rewrite tick_playing by exact Hstate. cbn zeta. cbn [pipes].
    apply Forall_map.
    assert (Hstream : Forall (wellFormedPipe screenHeight)
                        (streamAt screenWidth screenHeight r
                           (frameCount s + 1) (pipes s))).
    { assert (Hadv : Forall (wellFormedPipe screenHeight)
                       (advancePipes (pipes s))).
      { unfold advancePipes. apply Forall_forall. intros pipe Hin.
        apply filter_In in Hin. destruct Hin as [Hin _].
        apply in_map_iff in Hin. destruct Hin as (old & <- & Hold).
        rewrite Forall_forall in Hs. exact (Hs old Hold). }
      unfold streamAt. destruct (Z.rem (frameCount s + 1) 100 =? 0)%Z;
        [| exact Hadv].
      apply Forall_app. split; [exact Hadv |].
      constructor; [| constructor].
      destruct He as [Hr0 Hr1]. apply wellFormed_generatePipe; assumption. }
    revert Hstream. apply Forall_impl. intros pipe Hpipe.
    unfold wellFormedPipe.
    destruct (scorePipe_fields (Bird.x (bird s)) pipe) as (_ & -> & ->).
    exact Hpipe.
  - destruct (gameState s) eqn:Hstate;
      try (rewrite jump_not_gameOver by congruence; exact Hs).
    rewrite jump_gameOver by exact Hstate. constructor.
  - rewrite playAgain_step. destruct (gameState s); try exact Hs. constructor.
Qed.

(** Both halves of every pipe that is drawn are at least [minHeight]
    high.  On a screen high enough for [minHeight <= maxHeight] and with
    every draw of [Math.random()] in [[0, 1)], each pipe of each state of
    a game keeps [bottomY = topHeight + PIPE_GAP]; its top half, drawn
    [topHeight] high, and its bottom half, drawn
    [screenHeight - bottomY - 100] high from [bottomY] down to the ground
    line, are both at least [minHeight] high. *)
Theorem drawn_pipes_are_well_formed (es : list Event) :
  minHeight <= maxHeight ->
  Forall validEvent es ->
  Forall (fun pipe =>
            Pipe.bottomY pipe = Pipe.topHeight pipe + PIPE_GAP /\
            minHeight <= topPipeHeight pipe /\
            minHeight <= bottomPipeHeight screenHeight pipe /\
            Pipe.bottomY pipe + bottomPipeHeight screenHeight pipe
              == screenHeight - 100)
    (pipes (run es (FlappyBird screenHeight))).
Proof.
  intros Hrange Hvalid.
  assert (Hall : Forall (wellFormedPipe screenHeight)
                   (pipes (run es (FlappyBird screenHeight)))).
  { apply (run_invariant screenWidth screenHeight
             (fun g => Forall (wellFormedPipe screenHeight) (pipes g))
             validEvent).
    - intros e s He. apply wellFormed_step; assumption.
    - exact Hvalid.
    - constructor. }
  revert Hall. apply Forall_impl.
  intros pipe (Hgap & Hlow & Hhigh).
  unfold topPipeHeight, bottomPipeHeight. rewrite Hgap.
  unfold maxHeight, minHeight, PIPE_GAP in *.
  repeat split; first [assumption | lra].
Qed.

End MorePipes.

Lemma checkCollision_order_independent_witness :
  let near := {| Pipe.x := 90; Pipe.topHeight := 250; Pipe.bottomY := 450;
                 Pipe.scored := false |} in
  let far := {| Pipe.x := 390; Pipe.topHeight := 300; Pipe.bottomY := 500;
                Pipe.scored := false |} in
  Permutation [near; far] [far; near] /\
  checkCollision 800 (bird justTapped) [near; far] =
    checkCollision 800 (bird justTapped) [far; near].
Proof.
  cbn zeta.
  assert (Hswap : Permutation
            [ {| Pipe.x := 90; Pipe.topHeight := 250; Pipe.bottomY := 450;
                 Pipe.scored := false |};
              {| Pipe.x := 390; Pipe.topHeight := 300; Pipe.bottomY := 500;
                 Pipe.scored := false |} ]
            [ {| Pipe.x := 390; Pipe.topHeight := 300; Pipe.bottomY := 500;
                 Pipe.scored := false |};
              {| Pipe.x := 90; Pipe.topHeight := 250; Pipe.bottomY := 450;
                 Pipe.scored := false |} ]) by apply perm_swap.
  split; [exact Hswap |].
  exact (proj1 (checkCollision_order_independent 800 (bird justTapped) _ _)
           Hswap).
Defined.

Lemma generated_pipe_is_passable_witness :
  0 <= 0.5 /\ 0.5 < 1 /\ minHeight <= maxHeight 800 /\
  checkCollision 800 (bird justTapped)
    [Pipe.with_x 100 (generatePipe 400 800 0.5)] = false.
Proof.
  assert (Hr0 : 0 <= 0.5) by (vm_compute; discriminate).
  assert (Hr1 : 0.5 < 1) by reflexivity.
  assert (Hrange : minHeight <= maxHeight 800) by (vm_compute; discriminate).
  split; [exact Hr0 | split; [exact Hr1 | split; [exact Hrange |]]].
  refine (proj2 (proj2 (generated_pipe_is_passable 400 800 0.5
                          (bird justTapped) 100 Hr0 Hr1 Hrange)) _ _);
    vm_compute; discriminate.
Defined.

Lemma validEvent_frames (n : nat) (r : Q) :
  0 <= r -> r < 1 -> Forall validEvent (frames n r).
Proof.
  intros Hr0 Hr1. unfold frames.
  induction n as [|n IH]; cbn [repeat]; constructor;
    [split; assumption | exact IH].
Qed.

Lemma validEvent_taps (k n : nat) (r : Q) :
  0 <= r -> r < 1 -> Forall validEvent (taps k n r).
Proof.
  intros Hr0 Hr1. unfold taps.
  induction k as [|k IH]; cbn [repeat concat]; [constructor |].
  apply Forall_app. split; [| exact IH].
  constructor; [exact I | apply validEvent_frames; assumption].
Qed.

Lemma samePipes_single (ps : list Pipe.t) (q : Pipe.t) :
  Forall2 samePipe ps [q] -> exists p, ps = [p] /\ samePipe p q.
Proof.
  intros Hps. inversion Hps as [|p ? rest ? Hp Hrest]; subst.
  inversion Hrest; subst. exists p. split; [reflexivity | exact Hp].
Qed.

(** The first game on the sample screen at frame 100
    ([firstPipeSpawned]): one pipe, drawn with [Math.random() = 0.5]. *)
Lemma drawn_pipes_are_well_formed_witness :
  minHeight <= maxHeight 800 /\
  Forall validEvent (taps 3 31 0.5 ++ Activate :: frames 7 0.5) /\
  exists pipe : Pipe.t,
    pipes (run 400 800 (taps 3 31 0.5 ++ Activate :: frames 7 0.5)
             (FlappyBird 800)) = [pipe] /\
    Pipe.x pipe == 400 /\
    Pipe.topHeight pipe == 250 /\
    Pipe.bottomY pipe = Pipe.topHeight pipe + PIPE_GAP /\
    minHeight <= topPipeHeight pipe /\
    minHeight <= bottomPipeHeight 800 pipe.
Proof.
  assert (Hr0 : 0 <= 0.5) by (vm_compute; discriminate).
  assert (Hr1 : 0.5 < 1) by reflexivity.
  assert (Hrange : minHeight <= maxHeight 800) by (vm_compute; discriminate).
  assert (Hvalid : Forall validEvent
                     (taps 3 31 0.5 ++ Activate :: frames 7 0.5)).
  { apply Forall_app. split; [apply validEvent_taps; assumption |].
    constructor; [exact I | apply validEvent_frames; assumption]. }
  split; [exact Hrange | split; [exact Hvalid |]].
  assert (Hreached : runReduced 400 800
                       (taps 3 31 0.5 ++ Activate :: frames 7 0.5)
                       (FlappyBird 800) = firstPipeSpawned)
    by (vm_compute; reflexivity).
  destruct (reaches 400 800 _ _ Hreached) as (_ & _ & _ & _ & Hpipes & _).
  destruct (samePipes_single _ _ Hpipes) as (pipe & Hone & Hx & Htop & _).
  pose proof (drawn_pipes_are_well_formed 400 800
                (taps 3 31 0.5 ++ Activate :: frames 7 0.5)
                Hrange Hvalid) as Hall.
  rewrite Hone in Hall.
  inversion Hall as [|? ? (Hgap & Hhigh & Hlow & _) _]; subst.
  exists pipe.
  split; [exact Hone | split; [exact Hx | split; [exact Htop |]]].
  split; [exact Hgap | split; [exact Hhigh | exact Hlow]].
Defined.

(** ** The spacing of the pipes *)

Lemma evenly_compat (a a' : Q) (ps : list Pipe.t) :
  a == a' -> evenly a ps -> evenly a' ps.
Proof.
  intros Ha. induction ps as [|pipe rest IH]; cbn [evenly]; [trivial|].
  intros [Hx Hrest]. split; [rewrite Hx, Ha; reflexivity | exact (IH Hrest)].
Qed.

Lemma evenly_move (a : Q) (ps : list Pipe.t) :
  evenly a ps -> evenly (a - GAME_SPEED) (map movePipe ps).
Proof.
  induction ps as [|pipe rest IH]; cbn [evenly map]; [trivial|].
  intros [Hx Hrest]. split; [| exact (IH Hrest)].
  rewrite length_map. cbn [movePipe Pipe.with_x Pipe.x]. rewrite Hx. ring.
Qed.

Lemma evenly_scored (birdX a : Q) (ps : list Pipe.t) :
  evenly a ps -> evenly a (map (scorePipe birdX) ps).
Proof.
  induction ps as [|pipe rest IH]; cbn [evenly map]; [trivial|].
  intros [Hx Hrest]. split; [| exact (IH Hrest)].
  rewrite length_map. destruct (scorePipe_fields birdX pipe) as (-> & _).
  exact Hx.
Qed.

Lemma inject_succ (n : nat) :
  inject_Z (Z.of_nat (S n)) == inject_Z (Z.of_nat n) + 1.
Proof.
  rewrite Nat2Z.inj_succ. unfold Z.succ. rewrite inject_Z_plus. reflexivity.
Qed.

(** Every pipe of an evenly spaced list is right of where one more pipe
    in front would stand. *)
Lemma evenly_lower (a : Q) (ps : list Pipe.t) :
  evenly a ps ->
  Forall (fun pipe =>
            a - inject_Z (Z.of_nat (length ps)) * (GAME_SPEED * 100)
            < Pipe.x pipe) ps.
Proof.
  induction ps as [|pipe rest IH]; cbn [evenly length]; [constructor|].
  intros [Hx Hrest]. pose proof (inject_succ (length rest)) as Hsucc.
  set (n' := inject_Z (Z.of_nat (S (length rest)))) in *.
  set (n := inject_Z (Z.of_nat (length rest))) in *.
  clearbody n n'. unfold GAME_SPEED in *. constructor; [lra |].
  specialize (IH Hrest). revert IH. apply Forall_impl. intros q Hq. lra.
Qed.

Lemma evenly_upper (a : Q) (ps : list Pipe.t) :
  evenly a ps -> Forall (fun pipe => Pipe.x pipe <= a) ps.
Proof.
  induction ps as [|pipe rest IH]; cbn [evenly]; [constructor|].
  intros [Hx Hrest]. constructor; [| exact (IH Hrest)].
  assert (Hn : 0 <= inject_Z (Z.of_nat (length rest))).
  { change 0 with (inject_Z 0). rewrite <- Zle_Qle. lia. }
  set (n := inject_Z (Z.of_nat (length rest))) in *. clearbody n.
  unfold GAME_SPEED in *. nra.
Qed.

Lemma evenly_filter (a : Q) (ps : list Pipe.t) :
  evenly a ps -> evenly a (filter onScreen ps).
Proof.
  induction ps as [|pipe rest IH]; cbn [evenly filter]; [trivial|].
  intros [Hx Hrest]. destruct (onScreen pipe) eqn:Hon; [| exact (IH Hrest)].
  assert (Hall : filter onScreen rest = rest).
  { apply forallb_filter_id, forallb_forall. intros q Hq.
    pose proof (evenly_lower a rest Hrest) as Hlow.
    rewrite Forall_forall in Hlow. specialize (Hlow q Hq).
    unfold onScreen in *. reflect_Q. rewrite Hx in Hon. lra. }
  rewrite Hall. cbn [evenly]. split; assumption.
Qed.

Lemma evenly_snoc (a : Q) (ps : list Pipe.t) (new : Pipe.t) :
  evenly a ps ->
  Pipe.x new == a + GAME_SPEED * 100 ->
  evenly (a + GAME_SPEED * 100) (ps ++ [new]).
Proof.
  intros Hps Hnew. induction ps as [|pipe rest IH]; cbn [evenly app length].
  - split; [| exact I]. rewrite Hnew. cbn. ring.
  - destruct Hps as [Hx Hrest]. split; [| exact (IH Hrest)].
    rewrite length_app, Nat.add_comm. cbn [length Nat.add].
    rewrite inject_succ, Hx. ring.
Qed.

Lemma evenly_spaced (a : Q) (ps : list Pipe.t) : evenly a ps -> spaced ps.
Proof.
  induction ps as [|pipe rest IH]; cbn [evenly spaced]; [trivial|].
  intros [Hx Hrest]. split; [| exact (IH Hrest)].
  destruct rest as [|next rest']; [exact I |].
  destruct Hrest as [Hnext _]. cbn [length] in Hx.
  rewrite inject_succ in Hx. rewrite Hnext, Hx. ring.
Qed.

Section Spacing.

Variables screenWidth screenHeight : Q.

Local Abbreviation step := (step screenWidth screenHeight).
Local Abbreviation run := (run screenWidth screenHeight).

(** Where the newest pipe stands [frame mod 100] frames after its
    spawn. *)
Local Abbreviation newestAt frame :=
  (screenWidth - inject_Z (Z.rem frame 100) * GAME_SPEED).

Lemma paced_step (e : Event) (s : Game) :
  (0 <= frameCount s)%Z /\ evenly (newestAt (frameCount s)) (pipes s) ->
  (0 <= frameCount (step e s))%Z /\
  evenly (newestAt (frameCount (step e s))) (pipes (step e s)).
Proof.
  intros [Hframe Hs]. destruct e as [r| |].
  - destruct (gameState s) eqn:Hstate;
      try (rewrite tick_idle by congruence; split; assumption).
    rewrite tick_playing by exact Hstate. cbn zeta. cbn [frameCount pipes].
    split; [lia |]. apply evenly_scored.
    pose proof (evenly_filter _ _ (evenly_move _ _ Hs)) as Hadv.
    fold (advancePipes (pipes s)) in Hadv.
    unfold streamAt. destruct (Z.rem (frameCount s + 1) 100 =? 0)%Z eqn:Hspawn.
    + apply Z.eqb_eq in Hspawn.
      assert (Hrem : Z.rem (frameCount s) 100 = 99%Z)
        by (Z.to_euclidean_division_equations; lia).
      rewrite Hspawn. rewrite Hrem in Hadv.
      apply (evenly_compat (screenWidth - 99 * GAME_SPEED - GAME_SPEED
                            + GAME_SPEED * 100));
        [unfold GAME_SPEED; cbn; ring |].
      apply evenly_snoc; [exact Hadv |].
      unfold generatePipe. cbn [Pipe.x]. unfold GAME_SPEED. ring.
    + apply Z.eqb_neq in Hspawn.
      assert (Hrem : Z.rem (frameCount s + 1) 100
                     = (Z.rem (frameCount s) 100 + 1)%Z)
        by (Z.to_euclidean_division_equations; lia).
      rewrite Hrem, inject_Z_plus.
      revert Hadv. apply evenly_compat. cbn. ring.
  - destruct (gameState s) eqn:Hstate;
      try (rewrite jump_not_gameOver by congruence; split; assumption).
    rewrite jump_gameOver by exact Hstate. cbn. split; [lia | exact I].
  - rewrite playAgain_step.
    destruct (gameState s); try (split; assumption).
    cbn. split; [lia | exact I].
Qed.

Lemma paced_run (es : list Event) :
  (0 <= frameCount (run es (FlappyBird screenHeight)))%Z /\
  evenly (newestAt (frameCount (run es (FlappyBird screenHeight))))
    (pipes (run es (FlappyBird screenHeight))).
Proof.
  apply (run_invariant screenWidth screenHeight
           (fun g => (0 <= frameCount g)%Z /\
                     evenly (newestAt (frameCount g)) (pipes g))
           (fun _ => True)).
  - intros e s _. apply paced_step.
  - apply Forall_any_event.
  - cbn. split; [lia | exact I].
Qed.

(** The pipes of a game are listed from left to right, oldest first, and
    stand exactly [GAME_SPEED * 100 = 300] apart.  In every state of
    every game, each pipe is 300 right of the one before it in the list,
    the newest pipe is at [screenWidth] minus [GAME_SPEED] for each frame
    since the last multiple of 100, and no pipe is right of the screen
    edge. *)
Theorem pipes_evenly_spaced (es : list Event) :
  let g := run es (FlappyBird screenHeight) in
  spaced (pipes g) /\
  evenly (screenWidth - inject_Z (Z.rem (frameCount g) 100) * GAME_SPEED)
    (pipes g) /\
  Forall (fun pipe => Pipe.x pipe <= screenWidth) (pipes g).
Proof.
  cbn zeta. destruct (paced_run es) as [Hframe Hevenly].
  split; [exact (evenly_spaced _ _ Hevenly) |].
  split; [exact Hevenly |].
  pose proof (evenly_upper _ _ Hevenly) as Hupper.
  revert Hupper. apply Forall_impl. intros pipe Hx.
  assert (Hrem : 0 <= inject_Z (Z.rem (frameCount (run es
                                 (FlappyBird screenHeight))) 100)).
  { change 0 with (inject_Z 0). rewrite <- Zle_Qle.
    Z.to_euclidean_division_equations; lia. }
  unfold GAME_SPEED in *. nra.
Qed.

End Spacing.

(** On the sample screen the second pipe of [first_pipe_scores_once]
    stands 300 right of the first. *)
Example two_pipes_300_apart :
  sameGame
    (run 400 800 (firstn 229 (taps 8 31 0.5)) (FlappyBird 800))
    {| gameState := playing; score := 1; highScore := 0;
       bird := {| Bird.x := 100; Bird.y := 1784 # 5;
                  Bird.velocityY := -44 # 5 |};
       pipes := [ {| Pipe.x := 37; Pipe.topHeight := 250;
                     Pipe.bottomY := 450; Pipe.scored := true |};
                  {| Pipe.x := 337; Pipe.topHeight := 250;
                     Pipe.bottomY := 450; Pipe.scored := false |} ];
       frameCount := 221 |}.
Proof. apply reaches. vm_compute. reflexivity. Qed.

(** ** How many pipes there are *)

Section Count.

Variables screenWidth screenHeight : Q.

Local Abbreviation step := (step screenWidth screenHeight).
Local Abbreviation run := (run screenWidth screenHeight).

Lemma length_advancePipes (ps : list Pipe.t) :
  (length (advancePipes ps) <= length ps)%nat.
Proof.
  unfold advancePipes.
  pose proof (filter_length_le onScreen (map movePipe ps)) as Hle.
  rewrite length_map in Hle. exact Hle.
Qed.

Lemma spawned_step (e : Event) (s : Game) :
  (0 <= frameCount s /\
   Z.of_nat (length (pipes s)) <= frameCount s / 100)%Z ->
  (0 <= frameCount (step e s) /\
   Z.of_nat (length (pipes (step e s))) <= frameCount (step e s) / 100)%Z.
Proof.
  intros [Hframe Hcount]. destruct e as [r| |].
  - destruct (gameState s) eqn:Hstate;
      try (rewrite tick_idle by congruence; split; assumption).
    rewrite tick_playing by exact Hstate. cbn zeta. cbn [frameCount pipes].
    split; [lia |]. rewrite length_map.
    pose proof (length_advancePipes (pipes s)) as Hadv.
    unfold streamAt. destruct (Z.rem (frameCount s + 1) 100 =? 0)%Z eqn:Hspawn.
    + apply Z.eqb_eq in Hspawn. rewrite length_app. cbn [length].
      Z.to_euclidean_division_equations; lia.
    + Z.to_euclidean_division_equations; lia.
  - destruct (gameState s) eqn:Hstate;
      try (rewrite jump_not_gameOver by congruence; split; assumption).
    rewrite jump_gameOver by exact Hstate. cbn. lia.
  - rewrite playAgain_step.
    destruct (gameState s); try (split; assumption). cbn. lia.
Qed.

(** The list of pipes stays short.  In every state of every game there
    are at most as many pipes as multiples of 100 the frame counter has
    passed, so none during the first 99 frames of a game; and on a screen
    whose right edge is right of [- PIPE_WIDTH] the pipes, 300 apart
    between [- PIPE_WIDTH] and [screenWidth], are fewer than
    [(screenWidth + PIPE_WIDTH) / 300 + 1]. *)
Theorem pipes_are_few (es : list Event) :
  - PIPE_WIDTH < screenWidth ->
  let g := run es (FlappyBird screenHeight) in
  (Z.of_nat (length (pipes g)) <= frameCount g / 100)%Z /\
  ((frameCount g < 100)%Z -> pipes g = []) /\
  inject_Z (Z.of_nat (length (pipes g))) * (GAME_SPEED * 100)
    < screenWidth + PIPE_WIDTH + GAME_SPEED * 100.
Proof.
  intros Hscreen. cbn zeta.
  assert (Hcount :
    (0 <= frameCount (run es (FlappyBird screenHeight)) /\
     Z.of_nat (length (pipes (run es (FlappyBird screenHeight))))
     <= frameCount (run es (FlappyBird screenHeight)) / 100)%Z).
  { apply (run_invariant screenWidth screenHeight
             (fun g => (0 <= frameCount g /\
                        Z.of_nat (length (pipes g)) <= frameCount g / 100)%Z)
             (fun _ => True)).
    - intros e s _. apply spawned_step.
    - apply Forall_any_event.
    - cbn. lia. }
  destruct Hcount as [Hframe Hcount].
  split; [exact Hcount |]. split.
  - intros Hearly.
    destruct (pipes (run es (FlappyBird screenHeight))); [reflexivity |].
    cbn [length] in Hcount. Z.to_euclidean_division_equations; lia.
  - destruct (paced_run screenWidth screenHeight es) as [_ Hevenly].
    pose proof (run_onScreen screenWidth screenHeight Hscreen es
                  (FlappyBird screenHeight) (Forall_nil _)) as Hon.
    assert (Hrem : 0 <= inject_Z (Z.rem (frameCount (run es
                                   (FlappyBird screenHeight))) 100)).
    { change 0 with (inject_Z 0). rewrite <- Zle_Qle.
      Z.to_euclidean_division_equations; lia. }
    set (newest := inject_Z (Z.rem (frameCount (run es
                               (FlappyBird screenHeight))) 100)) in *.
    clearbody newest.
    destruct (pipes (run es (FlappyBird screenHeight))) as [|pipe rest].
    + cbn [length]. change (inject_Z (Z.of_nat 0)) with 0.
      unfold PIPE_WIDTH, GAME_SPEED in *. lra.
    + destruct Hevenly as [Hx _]. inversion Hon as [|? ? Hpipe _]; subst.
      cbn [length]. rewrite inject_succ.
      set (n := inject_Z (Z.of_nat (length rest))) in *. clearbody n.
      unfold PIPE_WIDTH, GAME_SPEED in *. rewrite Hx in Hpipe. lra.
Qed.

End Count.

Lemma pipes_are_few_witness :
  - PIPE_WIDTH < 400 /\
  (frameCount (run 400 800 [Activate; Tick 0.5] (FlappyBird 800)) < 100)%Z /\
  pipes (run 400 800 [Activate; Tick 0.5] (FlappyBird 800)) = [].
Proof.
  assert (Hscreen : - PIPE_WIDTH < 400) by reflexivity.
  assert (Hearly : (frameCount (run 400 800 [Activate; Tick 0.5]
                                  (FlappyBird 800)) < 100)%Z) by reflexivity.
  split; [exact Hscreen | split; [exact Hearly |]].
  exact (proj1 (proj2 (pipes_are_few 400 800 [Activate; Tick 0.5] Hscreen))
           Hearly).
Defined.
